(** * Fresnel propagation of Gaussian-beam wavefronts (poppy/fresnel.py)

    A shallow embedding of [poppy.fresnel]: the [QuadPhase] and
    [GaussianLens] optics, the Fresnel [Wavefront] with its Gaussian-beam
    bookkeeping, the FFT pair, the three propagation kernels [ptp], [wts],
    [stw], the regime dispatch [propagate_fresnel] and the lens interaction
    [apply_optic].

    Modelling conventions.
    - A Python float (and an astropy length, always expressed in meters) is a
      real number of [R]; floating-point rounding is not modelled.  [x / y]
      is the division of [R]: a statement that depends on the value of a
      quotient carries the hypothesis that its denominator is not zero, and
      the divisions of the effective-focal-length computation are recorded
      one by one (see [Divs]).
    - [np.inf] is the extra point [PInf] of [xreal].
    - The complex field is a list of rows of complex numbers.
    - Python exceptions are the [Raise] outcomes of [result].
    - The module logger [_log] is threaded through the wavefront as the field
      [logged]; a record keeps the level and the literal text of the message
      (the formatted numbers are left out).
    - What the module takes from elsewhere (numpy's FFT, the configuration of
      the FFT backend, the base class [poppy.Wavefront]) is gathered in the
      record [Env]. *)

From Stdlib Require Import Reals Lra Lia List Bool String Arith.
Import ListNotations.

Open Scope R_scope.

(** ** Exceptions *)

Inductive exn : Type :=
| NameError
| UnboundLocalError
| AssertionError.

Inductive result (A : Type) : Type :=
| Ok (a : A)
| Raise (e : exn).

Arguments Ok {A} a.
Arguments Raise {A} e.

Definition bind {A B : Type} (r : result A) (k : A -> result B) : result B :=
  match r with
  | Ok a => k a
  | Raise e => Raise e
  end.

Notation "x <- r ;; k" := (bind r (fun x => k))
  (at level 61, r at next level, right associativity).

(** ** Numbers *)

(** A float that may be [np.inf]. *)
Inductive xreal : Type :=
| Fin (r : R)
| PInf.

(** [1.0 / x]; [1.0 / np.inf] is [0.0]. *)
Definition xrecip (x : xreal) : R :=
  match x with
  | Fin r => 1 / r
  | PInf => 0
  end.

(** [x == v] for a finite [v]. *)
Definition xeqb (x : xreal) (v : R) : bool :=
  match x with
  | Fin r => if Req_dec_T r v then true else false
  | PInf => false
  end.

Definition C : Type := (R * R)%type.

Definition Cmult (a b : C) : C :=
  (fst a * fst b - snd a * snd b, fst a * snd b + snd a * fst b).

(** [np.exp] at a complex number. *)
Definition Cexp (a : C) : C :=
  (exp (fst a) * cos (snd a), exp (fst a) * sin (snd a)).

(** A complex number divided, or multiplied, by a float. *)
Definition Cdivr (a : C) (d : R) : C := (fst a / d, snd a / d).
Definition Cmulr (a : C) (d : R) : C := (fst a * d, snd a * d).

(** One angstrom, in meters. *)
Definition Angstrom : R := / 10 ^ 10.

(** ** Arrays *)

Definition grid : Type := list (list R).
Definition ndarray : Type := list (list C).

Definition shape0 {A : Type} (X : list (list A)) : nat := List.length X.
Definition shape1 {A : Type} (X : list (list A)) : nat :=
  match X with
  | [] => 0%nat
  | row :: _ => List.length row
  end.

Definition map2 {A B D : Type} (f : A -> B -> D) : list A -> list B -> list D :=
  fix go (l : list A) (m : list B) : list D :=
    match l, m with
    | a :: l', b :: m' => f a b :: go l' m'
    | _, _ => []
    end.

Definition arr_map {A B : Type} (f : A -> B) (X : list (list A)) : list (list B) :=
  map (map f) X.

Definition arr_map2 {A B D : Type} (f : A -> B -> D)
  (X : list (list A)) (Y : list (list B)) : list (list D) :=
  map2 (map2 f) X Y.

(** Element-wise product of two complex arrays of one shape. *)
Definition arr_mul (X P : ndarray) : ndarray := arr_map2 Cmult X P.

(** [np.indices(shape, dtype=float)]: the row index and the column index of
    every sample. *)
Definition indices (r c : nat) : grid * grid :=
  (map (fun i => repeat (INR i) c) (seq 0 r),
   repeat (map INR (seq 0 c)) r).

(** [np.roll] by half the length, which is what [np.fft.fftshift] does along
    one axis. *)
Definition fftshift1 {A : Type} (l : list A) : list A :=
  let k := (List.length l / 2)%nat in
  skipn (List.length l - k) l ++ firstn (List.length l - k) l.

Definition fftshift {A : Type} (X : list (list A)) : list (list A) :=
  fftshift1 (map fftshift1 X).

(** ** The wavefront *)

(** [poppy.poppy_core]'s plane types. *)
Inductive PlaneType : Type :=
| PUPIL
| IMAGE
| DETECTOR
| ROTATION
| INTERMED.

Definition PlaneType_eqb (a b : PlaneType) : bool :=
  match a, b with
  | PUPIL, PUPIL | IMAGE, IMAGE | DETECTOR, DETECTOR
  | ROTATION, ROTATION | INTERMED, INTERMED => true
  | _, _ => false
  end.

Inductive level : Type :=
| DEBUG
| WARNING
| ERROR.

(** A record of the logger [_log]: level and message text. *)
Definition log_record : Type := (level * string)%type.

(** An entry of [history]: the text and the distance appended to it. *)
Definition hist_entry : Type := (string * R)%type.

Record Wavefront : Type := mkWavefront {
  wavefront : ndarray;          (* the complex field *)
  pixelscale : R;               (* meters per pixel *)
  planetype : PlaneType;
  history : list hist_entry;
  wavelength : R;               (* meters *)
  oversample : R;
  n : nat;                      (* linear size of the array *)
  w_0 : R;                      (* radius of the latest beam waist *)
  z : R;                        (* position along the optical axis *)
  z_w0 : R;                     (* position of the latest beam waist *)
  waists_w0 : list R;
  waists_z : list R;
  spherical : bool;
  force_fresnel : bool;
  rayl_factor : R;
  logged : list log_record      (* what [_log] has received *)
}.

Definition set_wavefront (X : ndarray) (s : Wavefront) : Wavefront :=
  mkWavefront X (pixelscale s) (planetype s) (history s) (wavelength s)
    (oversample s) (n s) (w_0 s) (z s) (z_w0 s) (waists_w0 s) (waists_z s)
    (spherical s) (force_fresnel s) (rayl_factor s) (logged s).

Definition set_pixelscale (p : R) (s : Wavefront) : Wavefront :=
  mkWavefront (wavefront s) p (planetype s) (history s) (wavelength s)
    (oversample s) (n s) (w_0 s) (z s) (z_w0 s) (waists_w0 s) (waists_z s)
    (spherical s) (force_fresnel s) (rayl_factor s) (logged s).

Definition set_planetype (p : PlaneType) (s : Wavefront) : Wavefront :=
  mkWavefront (wavefront s) (pixelscale s) p (history s) (wavelength s)
    (oversample s) (n s) (w_0 s) (z s) (z_w0 s) (waists_w0 s) (waists_z s)
    (spherical s) (force_fresnel s) (rayl_factor s) (logged s).

Definition history_append (h : hist_entry) (s : Wavefront) : Wavefront :=
  mkWavefront (wavefront s) (pixelscale s) (planetype s) (history s ++ [h])
    (wavelength s) (oversample s) (n s) (w_0 s) (z s) (z_w0 s) (waists_w0 s)
    (waists_z s) (spherical s) (force_fresnel s) (rayl_factor s) (logged s).

Definition set_z (v : R) (s : Wavefront) : Wavefront :=
  mkWavefront (wavefront s) (pixelscale s) (planetype s) (history s)
    (wavelength s) (oversample s) (n s) (w_0 s) v (z_w0 s) (waists_w0 s)
    (waists_z s) (spherical s) (force_fresnel s) (rayl_factor s) (logged s).

(** [self.z_w0 = zw; self.w_0 = w]. *)
Definition set_waist (zw w : R) (s : Wavefront) : Wavefront :=
  mkWavefront (wavefront s) (pixelscale s) (planetype s) (history s)
    (wavelength s) (oversample s) (n s) w (z s) zw (waists_w0 s)
    (waists_z s) (spherical s) (force_fresnel s) (rayl_factor s) (logged s).

Definition set_spherical (b : bool) (s : Wavefront) : Wavefront :=
  mkWavefront (wavefront s) (pixelscale s) (planetype s) (history s)
    (wavelength s) (oversample s) (n s) (w_0 s) (z s) (z_w0 s) (waists_w0 s)
    (waists_z s) b (force_fresnel s) (rayl_factor s) (logged s).

(** [self.waists_z.append(zw); self.waists_w0.append(w)]. *)
Definition waists_append (zw w : R) (s : Wavefront) : Wavefront :=
  mkWavefront (wavefront s) (pixelscale s) (planetype s) (history s)
    (wavelength s) (oversample s) (n s) (w_0 s) (z s) (z_w0 s)
    (waists_w0 s ++ [w]) (waists_z s ++ [zw])
    (spherical s) (force_fresnel s) (rayl_factor s) (logged s).

(** [_log.debug(m)], [_log.warn(m)], [_log.error(m)]. *)
Definition log_ (l : level) (m : string) (s : Wavefront) : Wavefront :=
  mkWavefront (wavefront s) (pixelscale s) (planetype s) (history s)
    (wavelength s) (oversample s) (n s) (w_0 s) (z s) (z_w0 s) (waists_w0 s)
    (waists_z s) (spherical s) (force_fresnel s) (rayl_factor s)
    (logged s ++ [(l, m)]).

(** [self.shape], the shape of the field. *)
Definition shape (s : Wavefront) : nat * nat :=
  (shape0 (wavefront s), shape1 (wavefront s)).

(** ** Optics *)

(** [QuadPhase]: the radius of curvature [z_m], in meters, and the reference
    wavelength. *)
Record QuadPhase : Type := mkQuadPhase {
  z_m : R;
  reference_wavelength : R
}.

(** [GaussianLens]: a [QuadPhase] of radius [fl], the focal length in
    meters, with the plane type and the oversampling of the optic. *)
Record GaussianLens : Type := mkGaussianLens {
  fl : R;
  optic_planetype : PlaneType;
  optic_oversample : R;
  optic_reference_wavelength : R
}.

(** ** What the module takes from elsewhere *)

Record Env : Type := mkEnv {
  (* poppy.conf.use_fftw and poppy.poppy_core._FFTW_AVAILABLE *)
  use_fftw : bool;
  FFTW_AVAILABLE : bool;
  (* np.fft.fft2 and np.fft.ifft2 *)
  np_fft2 : ndarray -> ndarray;
  np_ifft2 : ndarray -> ndarray;
  (* poppy.Wavefront.coordinates: the Y and X coordinate grids of a plane of
     the given shape, pixel scale and plane type *)
  coordinates : nat * nat -> R -> PlaneType -> grid * grid;
  (* poppy.Wavefront.propagateTo: Fraunhofer propagation to an optic *)
  propagateTo : Wavefront -> GaussianLens -> result Wavefront
}.

(** ** [QuadPhase.getPhasor] and the product of a wavefront by an optic *)

(** [QuadPhase.getPhasor(wave)]: three debug records, then
    [np.exp(1.j * k * rsqd / (2.0 * z_m))] with [k = 2 pi / reference_wavelength]. *)
Definition getPhasor (env : Env) (q : QuadPhase) (wave : Wavefront)
  : Wavefront * ndarray :=
  let '(y, x) := coordinates env (shape wave) (pixelscale wave) (planetype wave) in
  let rsqd := arr_map2 (fun xv yv => xv ^ 2 + yv ^ 2) x y in
  let wave := log_ DEBUG "Applying spherical phase curvature =" wave in
  let wave := log_ DEBUG "Applying spherical lens phase =" wave in
  let wave := log_ DEBUG "max_rsqd =" wave in
  let k := 2 * PI / reference_wavelength q in
  (wave, arr_map (fun r => Cexp (0, k * r / (2 * z_m q))) rsqd).

(** Modelled from the spec: [poppy.Wavefront.__imul__] is in the base class,
    outside this module.  The optic is consumed by multiplication against the
    wavefront's field: the field is multiplied, sample by sample, by the
    phasor of the optic. *)
Definition imul (env : Env) (q : QuadPhase) (s : Wavefront) : Wavefront :=
  let '(s, phasor) := getPhasor env q s in
  set_wavefront (arr_mul (wavefront s) phasor) s.

(** ** Gaussian-beam parameters *)

(** Rayleigh distance, [np.pi * w_0**2 / wavelen_m]. *)
Definition z_R (s : Wavefront) : R := PI * w_0 s ^ 2 / wavelength s.

Definition divergence (s : Wavefront) : R := 2 * wavelength s / (PI * w_0 s).

(** Radius of curvature of the beam at [zz]; [np.inf] at the waist. *)
Definition R_c (s : Wavefront) (zz : R) : xreal :=
  let dz := zz - z_w0 s in
  if Req_dec_T dz 0 then PInf
  else Fin (dz * (1 + (z_R s / dz) ^ 2)).

(** Radius of the beam at [zz]. *)
Definition spot_radius (s : Wavefront) (zz : R) : R :=
  w_0 s * sqrt (1 + ((zz - z_w0 s) / z_R s) ^ 2).

(** ** The FFT pair *)

Definition USE_FFTW (env : Env) : bool := use_fftw env && FFTW_AVAILABLE env.

(** The module never imports [pyfftw]: evaluating the name raises
    [NameError]. *)
Definition pyfftw_fft2 : result (ndarray -> ndarray) := Raise NameError.
Definition pyfftw_ifft2 : result (ndarray -> ndarray) := Raise NameError.

Definition fft (env : Env) (s : Wavefront) : result Wavefront :=
  forward_FFT <- (if USE_FFTW env then pyfftw_fft2 else Ok (np_fft2 env)) ;;
  if USE_FFTW env then
    let s := log_ DEBUG "Using pyfftw" s in
    Ok (set_wavefront
          (arr_map (fun c => Cdivr c (INR (fst (shape s))))
             (forward_FFT (wavefront s))) s)
  else
    let s := log_ DEBUG "Using numpy FFT" s in
    Ok (set_wavefront
          (arr_map (fun c => Cdivr c (INR (fst (shape s))))
             (forward_FFT (wavefront s))) s).

Definition inv_fft (env : Env) (s : Wavefront) : result Wavefront :=
  inverse_FFT <- (if USE_FFTW env then pyfftw_ifft2 else Ok (np_ifft2 env)) ;;
  if USE_FFTW env then
    Ok (set_wavefront
          (arr_map (fun c => Cmulr c (INR (fst (shape s))))
             (inverse_FFT (wavefront s))) s)
  else
    let s := log_ DEBUG "Using numpy FFT" s in
    Ok (set_wavefront
          (arr_map (fun c => Cmulr c (INR (fst (shape s))))
             (inverse_FFT (wavefront s))) s).

(** [fft_coords]: the sample coordinates about the FFT centre of the array,
    scaled by the pixel scale. *)
Definition fft_coords (s : Wavefront) : grid * grid :=
  let '(y, x) := indices (fst (shape s)) (snd (shape s)) in
  let y := arr_map (fun v => v - INR (fst (shape s)) / 2) y in
  let x := arr_map (fun v => v - INR (snd (shape s)) / 2) x in
  let xscale := pixelscale s in
  let yscale := pixelscale s in
  (arr_map (fun v => v * yscale) y, arr_map (fun v => v * xscale) x).

(** ** The three kernels *)

(** Plane-to-plane propagation.  [dz] is an astropy length, as in every call
    of [propagate_fresnel]: the branch that converts it to meters. *)
Definition ptp (env : Env) (dz : R) (s : Wavefront) : result Wavefront :=
  let z_direct := dz in
  if Rlt_dec (Rabs dz) (1 * Angstrom) then
    Ok (log_ DEBUG "Skipping small dz = " s)
  else
    let '(x, y) := fft_coords s in
    let rho :=
      fftshift
        (arr_map2 Rplus
           (arr_map (fun v => (v / pixelscale s / 2 / oversample s) ^ 2) x)
           (arr_map (fun v => (v / pixelscale s / 2 / oversample s) ^ 2) y)) in
    let T := arr_map (fun r => (0, - (PI * wavelength s * z_direct * r))) rho in
    s <- fft env s ;;
    let s := set_wavefront (arr_mul (wavefront s) (arr_map Cexp T)) s in
    s <- inv_fft env s ;;
    let s := set_z (z s + dz) s in
    Ok (history_append ("Propagated Plane-to-Plane, dz = "%string, z_direct) s).

(** Waist-to-spherical propagation. *)
Definition wts (env : Env) (dz : R) (s : Wavefront) : result Wavefront :=
  let s := log_ DEBUG "Waist to Spherical propagation, dz=" s in
  if Req_dec_T dz 0 then
    Ok (log_ ERROR "Waist to Spherical propagation stopped, no change in distance." s)
  else
    let s := imul env (mkQuadPhase dz (wavelength s)) s in
    s <- (if Rgt_dec dz 0 then fft env s else inv_fft env s) ;;
    let s := set_pixelscale
               (wavelength s * Rabs dz / (INR (n s) * pixelscale s)) s in
    let s := set_z (z s + dz) s in
    Ok (history_append ("Propagated Waist to Spherical, dz = "%string, dz) s).

(** Spherical-to-waist propagation. *)
Definition stw (env : Env) (dz : R) (s : Wavefront) : result Wavefront :=
  let s := log_ DEBUG "Spherical to Waist propagation,dz=" s in
  if Req_dec_T dz 0 then
    Ok (log_ ERROR "Spherical to Waist propagation stopped, no change in distance." s)
  else
    s <- (if Rgt_dec dz 0 then fft env s else inv_fft env s) ;;
    let s := set_pixelscale
               (wavelength s * Rabs dz / (INR (n s) * pixelscale s)) s in
    let s := imul env (mkQuadPhase dz (wavelength s)) s in
    let s := set_z (z s + dz) s in
    Ok (history_append ("Propagated Spherical to Waist, dz = "%string, dz) s).

(** ** Regime dispatch *)

(** Is [zz] within the Rayleigh range of the waist? *)
Definition planar_range (s : Wavefront) (zz : R) : bool :=
  if Rlt_dec (Rabs (z_w0 s - zz)) (z_R s) then true else false.

(** [propagate_fresnel(delta_z)], with [display_intermed] left at its default
    [False] (the displays are plotting calls). *)
Definition propagate_fresnel (env : Env) (delta_z : R) (s : Wavefront)
  : result Wavefront :=
  let zt := z s + delta_z in
  let s := set_wavefront (fftshift (wavefront s)) s in
  let s := log_ DEBUG "Beginning Fresnel Prop. Waist at z = " s in
  s <- (if negb (spherical s) then
          if planar_range s zt then
            let s := log_ DEBUG "Plane to Plane Regime, dz=" s in
            let s := log_ DEBUG "Constant Pixelscale: " s in
            ptp env delta_z s
          else
            let s := log_ DEBUG "Plane to Spherical, inside Z_R to outside Z_R" s in
            s <- ptp env (z_w0 s - z s) s ;;
            wts env (zt - z_w0 s) s
        else
          if planar_range s zt then
            let s := log_ DEBUG "Spherical to Plane Regime, outside Z_R to inside Z_R" s in
            s <- stw env (z_w0 s - z s) s ;;
            ptp env (zt - z_w0 s) s
          else
            let s := log_ DEBUG "Spherical to Spherical, Outside Z_R to waist (z_w0) to outside Z_R" s in
            let s := log_ DEBUG "Starting Pixelscale: " s in
            s <- stw env (z_w0 s - z s) s ;;
            let s := log_ DEBUG "Intermediate Pixelscale: " s in
            wts env (zt - z_w0 s) s) ;;
  let s := set_wavefront (fftshift (wavefront s)) s in
  let s := set_planetype INTERMED s in
  Ok (log_ DEBUG "------ Propagated to plane of type at z = ------" s).

(** ** The lens interaction *)

(** A computation that records the denominator of every division it
    evaluates, in the order of evaluation. *)
Definition Divs (A : Type) : Type := (A * list xreal)%type.

Definition ret {A : Type} (a : A) : Divs A := (a, []).

Definition bindD {A B : Type} (m : Divs A) (k : A -> Divs B) : Divs B :=
  let '(a, d1) := m in
  let '(b, d2) := k a in
  (b, d1 ++ d2).

Notation "x <~ m ;; k" := (bindD m (fun x => k))
  (at level 61, m at next level, right associativity).

(** [1.0 / d]. *)
Definition recip (d : xreal) : Divs R := (xrecip d, [d]).

(** How the first part of [apply_optic] ends: by one of its two [return]
    statements, or by falling through with the local [R_input_beam]. *)
Inductive flow : Type :=
| Return (s : Wavefront)
| Continue (s : Wavefront) (R_input_beam : xreal).

Definition is_pupil_or_image (p : PlaneType) : bool :=
  PlaneType_eqb p PUPIL || PlaneType_eqb p IMAGE.

(** [apply_optic] up to and including [if ignore_wavefront: return]: the
    update of the Gaussian-beam parameters. *)
Definition beam_update (env : Env) (optic : GaussianLens) (z_lens : R)
  (ignore_wavefront : bool) (s : Wavefront) : result flow :=
  if Req_dec_T (oversample s) (optic_oversample optic) then
    let s := log_ DEBUG "Pre-Lens Parameters:" s in
    let zl := z_lens in
    let new_waist := spot_radius s zl in
    let s := log_ DEBUG "Beam radius at" s in
    let '(s, R_input_beam) :=
      if Rgt_dec (Rabs (z_w0 s - z s)) (rayl_factor s * z_R s) then
        let s := log_ DEBUG "spherical" s in
        let s := log_ DEBUG "w_0:, z_w0= z=, z_R=" s in
        let s := set_spherical true s in
        (s, Fin (z s - z_w0 s))
      else (s, PInf) in
    let '(s, r_curve) :=
      if is_pupil_or_image (planetype s) then
        let r_curve := - fl optic in
        (log_ DEBUG " input flat wavefront and has a curvature of =" s, r_curve)
      else
        let r_curve := 1 / (xrecip (R_c s zl) - 1 / fl optic) in
        (log_ DEBUG " input curved wavefront has a curvature of =" s, r_curve) in
    let s :=
      if xeqb (R_c s zl) (fl optic) then
        let s := log_ DEBUG " has a flat output wavefront" s in
        set_waist zl new_waist s
      else
        let s :=
          set_waist
            (- r_curve / (1 + (wavelength s * r_curve / (PI * new_waist ^ 2)) ^ 2) + zl)
            (new_waist / sqrt (1 + (PI * new_waist ^ 2 / (wavelength s * r_curve)) ^ 2))
            s in
        log_ DEBUG " has a curvature of =" s in
    let s := log_ DEBUG "Post Optic Parameters:" s in
    if negb (force_fresnel s) && is_pupil_or_image (planetype s)
       && (PlaneType_eqb (optic_planetype optic) IMAGE
           || PlaneType_eqb (optic_planetype optic) PUPIL)
    then
      let s := log_ DEBUG "Simple pupil / image propagation, Fresnel unnecessary. Reverting to Fraunhofer." s in
      s <- propagateTo env s optic ;;
      Ok (Return s)
    else if ignore_wavefront then Ok (Return s)
    else Ok (Continue s R_input_beam)
  else Raise AssertionError.

(** The four-way choice of the effective focal length [z_eff] of
    [apply_optic], with the divisions it evaluates.  [None] when no branch
    binds [z_eff]. *)
Definition effective_focal_length (optic : GaussianLens) (zl : R)
  (R_input_beam : xreal) (s : Wavefront) : Divs (Wavefront * option R) :=
  if negb (spherical s) && (if Rlt_dec (Rabs (z_w0 s - zl)) (z_R s) then true else false) then
    let s := log_ DEBUG "Near-field, Plane-to-Plane Propagation." s in
    ret (s, Some (fl optic))
  else if negb (spherical s) && (if Rgt_dec (Rabs (z_w0 s - zl)) (z_R s) then true else false) then
    a <~ recip (Fin (fl optic)) ;;
    b <~ recip (Fin (z s - z_w0 s)) ;;
    z_eff <~ recip (Fin (a + b)) ;;
    let s := log_ DEBUG "Inside Rayleigh distance to Outside Rayleigh distance." s in
    let s := set_spherical true s in
    ret (s, Some z_eff)
  else if spherical s && (if Rgt_dec (Rabs (z_w0 s - zl)) (z_R s) then true else false) then
    let s := log_ DEBUG "Spherical to Spherical wavefront propagation." s in
    _ <~ recip (Fin (fl optic)) ;;
    let s := log_ DEBUG "1/fl=" s in
    _ <~ recip R_input_beam ;;
    let s := log_ DEBUG "1.0/(R_input_beam)=" s in
    _ <~ recip (Fin (z s - z_w0 s)) ;;
    let s := log_ DEBUG "1.0/(self.z-self.z_w0)=" s in
    z_eff <~ (if xeqb R_input_beam 0 then
                a <~ recip (Fin (fl optic)) ;;
                b <~ recip R_input_beam ;;
                v <~ recip (Fin (a - b)) ;;
                ret (Some v)
              else ret None) ;;
    z_eff <~ (if Req_dec_T (zl - z_w0 s) 0 then
                a <~ recip (Fin (fl optic)) ;;
                b <~ recip (Fin (z s - z_w0 s)) ;;
                v <~ recip (Fin (a + b)) ;;
                ret (Some v)
              else
                a <~ recip (Fin (fl optic)) ;;
                b <~ recip (Fin (z s - z_w0 s)) ;;
                c <~ recip R_input_beam ;;
                v <~ recip (Fin (a + b - c)) ;;
                ret (Some v)) ;;
    ret (s, z_eff)
  else if spherical s && (if Rlt_dec (Rabs (z_w0 s - zl)) (z_R s) then true else false) then
    let s := log_ DEBUG "Spherical to Planar." s in
    a <~ recip (Fin (fl optic)) ;;
    b <~ recip R_input_beam ;;
    z_eff <~ recip (Fin (a - b)) ;;
    let s := set_spherical false s in
    ret (s, Some z_eff)
  else ret (s, None).

Definition apply_optic (env : Env) (optic : GaussianLens) (z_lens : R)
  (ignore_wavefront : bool) (s : Wavefront) : result Wavefront :=
  f <- beam_update env optic z_lens ignore_wavefront s ;;
  match f with
  | Return s => Ok s
  | Continue s R_input_beam =>
      let '(s, z_eff) := fst (effective_focal_length optic z_lens R_input_beam s) in
      match z_eff with
      | None => Raise UnboundLocalError
      | Some z_eff =>
          let effective_optic := mkQuadPhase (- z_eff) (wavelength s) in
          let s := imul env effective_optic s in
          let s := waists_append (z_w0 s) (w_0 s) s in
          Ok (set_planetype (optic_planetype optic) s)
      end
  end.

(** ** The regime table of the specification *)

Inductive kernel : Type :=
| Kptp (dz : R)
| Kwts (dz : R)
| Kstw (dz : R).

Definition run_kernel (env : Env) (k : kernel) (s : Wavefront) : result Wavefront :=
  match k with
  | Kptp dz => ptp env dz s
  | Kwts dz => wts env dz s
  | Kstw dz => stw env dz s
  end.

Fixpoint run_kernels (env : Env) (ks : list kernel) (s : Wavefront)
  : result Wavefront :=
  match ks with
  | [] => Ok s
  | k :: ks' => s' <- run_kernel env k s ;; run_kernels env ks' s'
  end.

(** The in-range test in the words of the specification:
    [|z_w0 - z_target| < z_R], strictly. *)
Definition spec_in_range (s : Wavefront) (z_target : R) : Prop :=
  Rabs (z_w0 s - z_target) < z_R s.

Definition spec_in_range_dec (s : Wavefront) (z_target : R)
  : {spec_in_range s z_target} + {~ spec_in_range s z_target} :=
  Rlt_dec (Rabs (z_w0 s - z_target)) (z_R s).

(** The four rows of the regime table, read off the specification. *)
Definition spec_regime_table (s : Wavefront) (delta_z : R) : list kernel :=
  let z_target := z s + delta_z in
  match spherical s, spec_in_range_dec s z_target with
  | false, left _ => [Kptp delta_z]
  | false, right _ => [Kptp (z_w0 s - z s); Kwts (z_target - z_w0 s)]
  | true, left _ => [Kstw (z_w0 s - z s); Kptp (z_target - z_w0 s)]
  | true, right _ => [Kstw (z_w0 s - z s); Kwts (z_target - z_w0 s)]
  end.

(** The dispatch in the words of the specification: shift the field, apply
    the kernels of the table, shift back, mark the plane intermediate. *)
Definition spec_propagate_fresnel (env : Env) (delta_z : R) (s : Wavefront)
  : result Wavefront :=
  let s0 := set_wavefront (fftshift (wavefront s)) s in
  s1 <- run_kernels env (spec_regime_table s delta_z) s0 ;;
  Ok (set_planetype INTERMED (set_wavefront (fftshift (wavefront s1)) s1)).

(** A wavefront with the records of the logger left out. *)
Definition forget_log (s : Wavefront) : Wavefront :=
  mkWavefront (wavefront s) (pixelscale s) (planetype s) (history s)
    (wavelength s) (oversample s) (n s) (w_0 s) (z s) (z_w0 s) (waists_w0 s)
    (waists_z s) (spherical s) (force_fresnel s) (rayl_factor s) [].

Definition res_forget_log (r : result Wavefront) : result Wavefront :=
  match r with
  | Ok s => Ok (forget_log s)
  | Raise e => Raise e
  end.

(** The Gaussian-beam bookkeeping that no kernel writes. *)
Definition beam (s : Wavefront) : R * R * R * bool * list R * list R * R :=
  (z_w0 s, w_0 s, wavelength s, spherical s, waists_z s, waists_w0 s, rayl_factor s).

(** What [ptp] does to the axial position. *)
Definition ptp_z (dz : R) (z0 : R) : R :=
  if Rlt_dec (Rabs dz) (1 * Angstrom) then z0 else z0 + dz.

(** ** The axial position after the dispatch *)

(** The axial position a kernel leaves, from the one it finds. *)
Definition kernel_z (k : kernel) (z0 : R) : R :=
  match k with
  | Kptp dz => ptp_z dz z0
  | Kwts dz => z0 + dz
  | Kstw dz => z0 + dz
  end.

(** The lengths of the plane-to-plane steps of a kernel sequence. *)
Definition ptp_steps (ks : list kernel) : list R :=
  flat_map (fun k => match k with Kptp dz => [dz] | _ => [] end) ks.

(** A plane-to-plane step that [ptp] does not skip, or of no length. *)
Definition ptp_step_exact (dz : R) : Prop := dz = 0 \/ 1 * Angstrom <= Rabs dz.

(** ** A concrete environment *)

Definition Cadd (a b : C) : C := (fst a + fst b, snd a + snd b).

(** The discrete Fourier transform of a list, with the sign of the exponent
    as a parameter: entry [k] is the sum of [x_j * exp(sgn * 2 pi i j k / N)]. *)
Definition dft1 (sgn : R) (l : list C) : list C :=
  let N := List.length l in
  map (fun k =>
         fold_right Cadd (0, 0)
           (map2 (fun j x => Cmult x (Cexp (0, sgn * (2 * PI * INR j * INR k / INR N))))
              (seq 0 N) l))
    (seq 0 N).

Fixpoint transpose {A : Type} (X : list (list A)) : list (list A) :=
  match X with
  | [] => []
  | [row] => map (fun a => [a]) row
  | row :: rest => map2 cons row (transpose rest)
  end.

(** The two-dimensional transforms that [np.fft.fft2] and [np.fft.ifft2]
    compute: the transform of every row, then of every column; the inverse
    divides by the length along each axis. *)
Definition dft2 (X : ndarray) : ndarray :=
  transpose (map (dft1 (-1)) (transpose (map (dft1 (-1)) X))).

Definition idft1 (l : list C) : list C :=
  map (fun c => Cdivr c (INR (List.length l))) (dft1 1 l).

Definition idft2 (X : ndarray) : ndarray :=
  transpose (map idft1 (transpose (map idft1 X))).

(** Modelled from the spec: [poppy.Wavefront.coordinates] is in the base
    class, outside this module; it returns the physical Y and X coordinate
    grids of the plane.  Here the coordinates are those of the sample centres,
    measured from the centre of the array, in units of the pixel scale. *)
Definition centred_coordinates (sh : nat * nat) (ps : R) (_ : PlaneType)
  : grid * grid :=
  let '(y, x) := indices (fst sh) (snd sh) in
  (arr_map (fun v => (v - (INR (fst sh) - 1) / 2) * ps) y,
   arr_map (fun v => (v - (INR (snd sh) - 1) / 2) * ps) x).

(** The module with numpy's FFT. *)
Definition numpy_env : Env :=
  mkEnv false false dft2 idft2 centred_coordinates (fun s _ => Ok s).

(** The module when [pyfftw] is installed and selected. *)
Definition fftw_env : Env :=
  mkEnv true true dft2 idft2 centred_coordinates (fun s _ => Ok s).

(** [Wavefront.__init__]: the field, its pixel scale, plane type, history and
    wavelength are those the base class sets up (the field already padded);
    the waist is at [z = 0] with the radius of the beam, and [n] is the
    number of rows of the (square) field.  An image plane is refused with
    [ValueError], here [None]. *)
Definition Wavefront_init (X : ndarray) (ps : R) (pt : PlaneType)
  (wavelen beam_radius rayl over : R) (force : bool) : option Wavefront :=
  let s := mkWavefront X ps pt [] wavelen over (shape0 X) beam_radius 0 0
             [beam_radius] [0] false force rayl [] in
  if PlaneType_eqb (planetype s) IMAGE then None else Some s.

(** A two-by-two field at a pupil: unit wavelength, unit pixel scale, unit
    beam radius, the default [rayl_factor] and oversampling. *)
Definition pupil_2x2 : Wavefront :=
  mkWavefront [[(1, 0); (0, 0)]; [(0, 0); (0, 0)]] 1 PUPIL [] 1 2 2 1 0 0
    [1] [0] false true 2 [].

(** ** Calls that change nothing but the log *)

(** The call returns, every attribute of the wavefront is as before, and the
    logger has received the records [recs]. *)
Definition no_op_logging (r : result Wavefront) (s : Wavefront)
  (recs : list log_record) : Prop :=
  exists s', r = Ok s' /\ forget_log s' = forget_log s
             /\ logged s' = logged s ++ recs.

(** ** The waist after a lens *)

(** The wavefront with which the first part of [apply_optic] ends. *)
Definition flow_state (f : flow) : Wavefront :=
  match f with
  | Return s => s
  | Continue s _ => s
  end.

(** The radius of curvature [r_curve] that [apply_optic] computes at the
    lens. *)
Definition r_curve_at (s : Wavefront) (optic : GaussianLens) (zl : R) : R :=
  if is_pupil_or_image (planetype s) then - fl optic
  else 1 / (xrecip (R_c s zl) - 1 / fl optic).

(** The position and the radius of the waist that [apply_optic] assigns. *)
Definition waist_after (s : Wavefront) (optic : GaussianLens) (zl : R) : R * R :=
  let new_waist := spot_radius s zl in
  let r_curve := r_curve_at s optic zl in
  if xeqb (R_c s zl) (fl optic) then (zl, new_waist)
  else
    (- r_curve / (1 + (wavelength s * r_curve / (PI * new_waist ^ 2)) ^ 2) + zl,
     new_waist / sqrt (1 + (PI * new_waist ^ 2 / (wavelength s * r_curve)) ^ 2)).

(** The local [R_input_beam] of [apply_optic]. *)
Definition R_input_beam_of (s : Wavefront) : xreal :=
  if Rgt_dec (Rabs (z_w0 s - z s)) (rayl_factor s * z_R s)
  then Fin (z s - z_w0 s) else PInf.

(** [propagateTo] is a method of the base class: it returns, and it does not
    write the Gaussian-beam bookkeeping of this module. *)
Definition base_class_propagateTo (env : Env) : Prop :=
  forall s optic, exists s', propagateTo env s optic = Ok s' /\ beam s' = beam s.

(** Does [apply_optic] hand the wavefront over to Fraunhofer propagation? *)
Definition delegates (s : Wavefront) (optic : GaussianLens) : bool :=
  negb (force_fresnel s) && is_pupil_or_image (planetype s)
  && (PlaneType_eqb (optic_planetype optic) IMAGE
      || PlaneType_eqb (optic_planetype optic) PUPIL).

(** The Gaussian beam of waist radius [W] at a thin lens of focal length [f],
    at wavelength [lam]: position of the new waist behind the lens, and its
    radius. *)
Definition lens_waist_position (lam W f : R) : R :=
  f / (1 + (lam * f / (PI * W ^ 2)) ^ 2).

Definition lens_waist_radius (lam W f : R) : R :=
  W / sqrt (1 + (PI * W ^ 2 / (lam * f)) ^ 2).

(** A thin lens of unit focal length, oversampled like [pupil_2x2]. *)
Definition unit_lens : GaussianLens := mkGaussianLens 1 INTERMED 2 1.

(** ** Examples for the lens interaction *)

(** The pupil of [pupil_2x2] built with [rayl_factor = -1]. *)
Definition pupil_negative_rayl : Wavefront :=
  mkWavefront [[(1, 0); (0, 0)]; [(0, 0); (0, 0)]] 1 PUPIL [] 1 2 2 1 0 0
    [1] [0] false true (-1) [].

(** A beam of wavelength [pi] and waist radius 1 (Rayleigh distance 1), with
    its waist at [z = 0], seen at [z = 3] on an intermediate plane. *)
Definition diverging_beam : Wavefront :=
  mkWavefront [[(1, 0); (0, 0)]; [(0, 0); (0, 0)]] 1 INTERMED [] PI 2 2 1 3 0
    [1] [0] true true 2 [].

(** A lens whose focal length is the distance of [diverging_beam] from its
    waist. *)
Definition collimating_lens : GaussianLens := mkGaussianLens 3 INTERMED 2 1.

(** ** What the module expects of numpy's FFT *)

(** An array of [r] rows of [c] samples. *)
Definition rect {A : Type} (X : list (list A)) (r c : nat) : Prop :=
  List.length X = r /\ Forall (fun row => List.length row = c) X.

(** The contract of [np.fft.fft2] and [np.fft.ifft2] on arrays of [r] rows
    of [c] samples: they keep the shape, they are inverse to each other, and
    they commute with the product and the quotient by a float. *)
Record fft_contract (env : Env) (r c : nat) : Prop := mk_fft_contract {
  fft2_rect : forall X, rect X r c -> rect (np_fft2 env X) r c;
  ifft2_rect : forall X, rect X r c -> rect (np_ifft2 env X) r c;
  ifft2_fft2 : forall X, rect X r c -> np_ifft2 env (np_fft2 env X) = X;
  fft2_ifft2 : forall X, rect X r c -> np_fft2 env (np_ifft2 env X) = X;
  fft2_scale : forall X k, rect X r c ->
      np_fft2 env (arr_map (fun v => Cmulr v k) X)
      = arr_map (fun v => Cmulr v k) (np_fft2 env X);
  ifft2_scale : forall X k, rect X r c ->
      np_ifft2 env (arr_map (fun v => Cdivr v k) X)
      = arr_map (fun v => Cdivr v k) (np_ifft2 env X)
}.

(** The transform of two samples: their sum and their difference. *)
Definition butterfly (a b : C) : list C :=
  [(fst a + fst b, snd a + snd b); (fst a - fst b, snd a - snd b)].

(** ** The fields of the waist kernels *)

(** The field after [fft()] and after [inv_fft()] with numpy's FFT. *)
Definition fft_field (env : Env) (X : ndarray) : ndarray :=
  arr_map (fun v => Cdivr v (INR (shape0 X))) (np_fft2 env X).

Definition inv_fft_field (env : Env) (X : ndarray) : ndarray :=
  arr_map (fun v => Cmulr v (INR (shape0 X))) (np_ifft2 env X).

(** The phasor of [QuadPhase(zm, reference_wavelength=lam)] on a plane of
    shape [sh], pixel scale [ps] and plane type [pt]. *)
Definition phasor_of (env : Env) (zm lam : R) (sh : nat * nat) (ps : R)
  (pt : PlaneType) : ndarray :=
  let '(y, x) := coordinates env sh ps pt in
  arr_map (fun r => Cexp (0, 2 * PI / lam * r / (2 * zm)))
    (arr_map2 (fun xv yv => xv ^ 2 + yv ^ 2) x y).

(** [coordinates] returns grids of the shape it is asked for. *)
Definition coordinates_fit (env : Env) (r c : nat) : Prop :=
  forall ps pt,
    rect (fst (coordinates env (r, c) ps pt)) r c
    /\ rect (snd (coordinates env (r, c) ps pt)) r c.

(** The pixel scale that [wts] and [stw] assign. *)
Definition fourier_pixelscale (s : Wavefront) (dz : R) : R :=
  wavelength s * Rabs dz / (INR (n s) * pixelscale s).

(** ** Further definitions: intensity, sequences of operations *)


(** The squared radial frequency [rho] of [ptp], in FFT order. *)
Definition rho (s : Wavefront) : grid :=
  let '(x, y) := fft_coords s in
  fftshift
    (arr_map2 Rplus
       (arr_map (fun v => (v / pixelscale s / 2 / oversample s) ^ 2) x)
       (arr_map (fun v => (v / pixelscale s / 2 / oversample s) ^ 2) y)).

(** The transfer function [np.exp(T)] of [ptp] for the distance [dz]. *)
Definition transfer (s : Wavefront) (dz : R) : ndarray :=
  arr_map Cexp (arr_map (fun r => (0, - (PI * wavelength s * dz * r))) (rho s)).

(** A sampling that makes sense: positive wavelength and pixel scale, and an
    array size [n] that is not zero. *)
Definition sampled (s : Wavefront) : Prop :=
  0 < wavelength s /\ 0 < pixelscale s /\ n s <> 0%nat.

(** Everything of a wavefront that the lens interaction cannot write when it
    does not touch the field: all but the waist, the spherical flag, the
    waist lists, the plane type and the log. *)
Definition optic_frame (s : Wavefront)
  : ndarray * R * list hist_entry * R * R * nat * R * bool * R :=
  (wavefront s, pixelscale s, history s, wavelength s, oversample s, n s,
   z s, force_fresnel s, rayl_factor s).

(** The Rayleigh distance of the waist that [apply_optic] assigns. *)
Definition z_R_after (s : Wavefront) (optic : GaussianLens) (zl : R) : R :=
  PI * snd (waist_after s optic zl) ^ 2 / wavelength s.


(** A call on a wavefront: a propagation or the passage through a lens. *)
Inductive op : Type :=
| Propagate (delta_z : R)
| Optic (optic : GaussianLens) (z_lens : R) (ignore_wavefront : bool).

Definition run_op (env : Env) (o : op) (s : Wavefront) : result Wavefront :=
  match o with
  | Propagate delta_z => propagate_fresnel env delta_z s
  | Optic optic z_lens ign => apply_optic env optic z_lens ign s
  end.

(** A sequence of calls, stopped by the first exception. *)
Fixpoint run_ops (env : Env) (os : list op) (s : Wavefront) : result Wavefront :=
  match os with
  | [] => Ok s
  | o :: os' => s' <- run_op env o s ;; run_ops env os' s'
  end.

(** The number of lens passages in a sequence of calls. *)
Definition optics_in (os : list op) : nat :=
  List.length (filter (fun o => match o with Optic _ _ _ => true | _ => false end) os).

(** [Wavefront.waists]: the two lists stacked as a two-row array, when they
    have one length. *)
Definition waists (s : Wavefront) : option (list (list R)) :=
  if Nat.eqb (List.length (waists_z s)) (List.length (waists_w0 s))
  then Some [waists_z s; waists_w0 s] else None.

(** A kernel call that returns before doing anything. *)
Definition kernel_skipped (k : kernel) : Prop :=
  match k with
  | Kptp dz => Rabs dz < 1 * Angstrom
  | Kwts dz => dz = 0
  | Kstw dz => dz = 0
  end.


(** ** [propagate_direct] *)

(** The quotient of two complex numbers. *)
Definition Cdiv (a b : C) : C :=
  ((fst a * fst b + snd a * snd b) / (fst b ^ 2 + snd b ^ 2),
   (snd a * fst b - fst a * snd b) / (fst b ^ 2 + snd b ^ 2)).

(** [propagate_direct] calls [forward_FFT], a name bound neither in the
    function nor in the module: evaluating it raises [NameError]. *)
Definition forward_FFT_name : result (ndarray -> ndarray) := Raise NameError.

(** The direct propagation of Andersen and Enmark, for a distance [zd] given
    as an astropy length. *)
Definition propagate_direct (env : Env) (zd : R) (s : Wavefront)
  : result Wavefront :=
  let z_direct := zd in
  let '(x, y) := fft_coords s in
  let k := PI * 2 / wavelength s in
  let S := INR (n s) * pixelscale s in
  let s := log_ DEBUG "Propagation Parameters: k=S=z=" s in
  let rsqd := arr_map2 (fun xv yv => xv ^ 2 + yv ^ 2) x y in
  let QuadPhase_1st :=
    arr_map (fun r => Cexp (0, k * r / (2 * z_direct))) rsqd in
  let QuadPhase_2nd :=
    arr_map (fun r =>
               Cmult (Cdiv (Cexp (0, k * z_direct)) (0, wavelength s * z_direct))
                 (Cexp (0, r / (2 * z_direct)))) rsqd in
  let stage1 := arr_mul (wavefront s) QuadPhase_1st in
  forward_FFT <- forward_FFT_name ;;
  let result :=
    arr_mul
      (arr_map (fun v => Cmulr v (pixelscale s ^ 2))
         (fftshift (forward_FFT stage1)))
      QuadPhase_2nd in
  let result := fftshift result in
  let s := set_wavefront result s in
  Ok (history_append ("Direct propagation to z= "%string, zd) s).

(** ** Basic facts *)

Lemma forget_log_log_ (l : level) (m : string) (s : Wavefront) :
  forget_log (log_ l m s) = forget_log s.
Proof. reflexivity. Qed.

(** Two wavefronts that agree up to the logger's records. *)
Lemma forget_log_inv (s1 s2 : Wavefront) :
  forget_log s1 = forget_log s2 ->
  exists l, s1 = mkWavefront (wavefront s2) (pixelscale s2) (planetype s2)
      (history s2) (wavelength s2) (oversample s2) (n s2) (w_0 s2) (z s2)
      (z_w0 s2) (waists_w0 s2) (waists_z s2) (spherical s2) (force_fresnel s2)
      (rayl_factor s2) l.
Proof.
  destruct s1, s2; unfold forget_log; simpl; intros H.
  injection H; intros; subst. eexists; reflexivity.
Qed.

Ltac same_up_to_log H :=
  apply forget_log_inv in H; destruct H as [? ->].

Lemma fft_forget_log (env : Env) (s1 s2 : Wavefront) :
  forget_log s1 = forget_log s2 ->
  res_forget_log (fft env s1) = res_forget_log (fft env s2).
Proof.
  intros H; same_up_to_log H. destruct s2; unfold fft.
  destruct (USE_FFTW env); reflexivity.
Qed.

Lemma inv_fft_forget_log (env : Env) (s1 s2 : Wavefront) :
  forget_log s1 = forget_log s2 ->
  res_forget_log (inv_fft env s1) = res_forget_log (inv_fft env s2).
Proof.
  intros H; same_up_to_log H. destruct s2; unfold inv_fft.
  destruct (USE_FFTW env); reflexivity.
Qed.

Lemma imul_forget_log (env : Env) (q : QuadPhase) (s1 s2 : Wavefront) :
  forget_log s1 = forget_log s2 ->
  forget_log (imul env q s1) = forget_log (imul env q s2).
Proof.
  intros H; same_up_to_log H. destruct s2; unfold imul, getPhasor, shape; simpl.
  destruct (coordinates env _ _ _); reflexivity.
Qed.

Lemma ptp_forget_log (env : Env) (dz : R) (s1 s2 : Wavefront) :
  forget_log s1 = forget_log s2 ->
  res_forget_log (ptp env dz s1) = res_forget_log (ptp env dz s2).
Proof.
  intros H; same_up_to_log H. destruct s2; unfold ptp, fft, inv_fft.
  destruct (Rlt_dec _ _); [reflexivity|].
  destruct (USE_FFTW env); reflexivity.
Qed.

Lemma wts_forget_log (env : Env) (dz : R) (s1 s2 : Wavefront) :
  forget_log s1 = forget_log s2 ->
  res_forget_log (wts env dz s1) = res_forget_log (wts env dz s2).
Proof.
  intros H; same_up_to_log H. destruct s2; unfold wts, fft, inv_fft, imul, getPhasor, shape.
  destruct (Req_dec_T _ _); [reflexivity|]. simpl.
  destruct (coordinates env _ _ _).
  destruct (Rgt_dec _ _); destruct (USE_FFTW env); reflexivity.
Qed.

Lemma stw_forget_log (env : Env) (dz : R) (s1 s2 : Wavefront) :
  forget_log s1 = forget_log s2 ->
  res_forget_log (stw env dz s1) = res_forget_log (stw env dz s2).
Proof.
  intros H; same_up_to_log H. destruct s2; unfold stw, fft, inv_fft, imul, getPhasor, shape.
  destruct (Req_dec_T _ _); [reflexivity|]. simpl.
  destruct (Rgt_dec _ _); destruct (USE_FFTW env); simpl; try reflexivity;
    destruct (coordinates env _ _ _); reflexivity.
Qed.

Lemma fft_inv (env : Env) (s s' : Wavefront) :
  fft env s = Ok s' ->
  USE_FFTW env = false /\
  s' = set_wavefront
         (arr_map (fun c => Cdivr c (INR (shape0 (wavefront s))))
            (np_fft2 env (wavefront s)))
         (log_ DEBUG "Using numpy FFT" s).
Proof.
  unfold fft. destruct (USE_FFTW env); simpl; [discriminate|].
  intros H; injection H as <-. split; reflexivity.
Qed.

Lemma inv_fft_inv (env : Env) (s s' : Wavefront) :
  inv_fft env s = Ok s' ->
  USE_FFTW env = false /\
  s' = set_wavefront
         (arr_map (fun c => Cmulr c (INR (shape0 (wavefront s))))
            (np_ifft2 env (wavefront s)))
         (log_ DEBUG "Using numpy FFT" s).
Proof.
  unfold inv_fft. destruct (USE_FFTW env); simpl; [discriminate|].
  intros H; injection H as <-. split; reflexivity.
Qed.

Lemma fft_numpy (env : Env) (s : Wavefront) :
  USE_FFTW env = false -> exists s', fft env s = Ok s'.
Proof. unfold fft; intros ->; simpl; eexists; reflexivity. Qed.

Lemma inv_fft_numpy (env : Env) (s : Wavefront) :
  USE_FFTW env = false -> exists s', inv_fft env s = Ok s'.
Proof. unfold inv_fft; intros ->; simpl; eexists; reflexivity. Qed.

Lemma imul_beam (env : Env) (q : QuadPhase) (s : Wavefront) :
  beam (imul env q s) = beam s /\ z (imul env q s) = z s
  /\ pixelscale (imul env q s) = pixelscale s.
Proof.
  unfold imul, getPhasor. destruct (coordinates env _ _ _); repeat split.
Qed.

Lemma ptp_beam (env : Env) (dz : R) (s s' : Wavefront) :
  ptp env dz s = Ok s' -> beam s' = beam s /\ z s' = ptp_z dz (z s).
Proof.
  unfold ptp, ptp_z. destruct (Rlt_dec _ _).
  - intros H; injection H as <-. split; reflexivity.
  - destruct (fft env s) as [s1|] eqn:E1; simpl; [|discriminate].
    apply fft_inv in E1 as [_ ->].
    match goal with |- bind ?r _ = _ -> _ => destruct r as [s2|] eqn:E2 end;
      simpl; [|discriminate].
    apply inv_fft_inv in E2 as [_ ->].
    intros H; injection H as <-. split; reflexivity.
Qed.

Lemma wts_beam (env : Env) (dz : R) (s s' : Wavefront) :
  wts env dz s = Ok s' -> beam s' = beam s /\ z s' = z s + dz.
Proof.
  unfold wts. destruct (Req_dec_T dz 0) as [->|Hdz].
  - intros H; injection H as <-. split; [reflexivity|simpl; lra].
  - match goal with |- bind ?r _ = _ -> _ => destruct r as [s1|] eqn:E1 end;
      simpl; [|discriminate].
    intros H; injection H as <-.
    pose proof (imul_beam env (mkQuadPhase dz (wavelength (log_ DEBUG "Waist to Spherical propagation, dz=" s)))
                  (log_ DEBUG "Waist to Spherical propagation, dz=" s)) as (Hb & Hz & _).
    destruct (Rgt_dec dz 0);
      [apply fft_inv in E1 as [_ ->] | apply inv_fft_inv in E1 as [_ ->]];
      (split; [exact Hb | simpl; simpl in Hz; rewrite Hz; reflexivity]).
Qed.

Lemma stw_beam (env : Env) (dz : R) (s s' : Wavefront) :
  stw env dz s = Ok s' -> beam s' = beam s /\ z s' = z s + dz.
Proof.
  unfold stw. destruct (Req_dec_T dz 0) as [->|Hdz].
  - intros H; injection H as <-. split; [reflexivity|simpl; lra].
  - match goal with |- bind ?r _ = _ -> _ => destruct r as [s1|] eqn:E1 end;
      simpl; [|discriminate].
    intros H; injection H as <-.
    destruct (Rgt_dec dz 0);
      [apply fft_inv in E1 as [_ ->] | apply inv_fft_inv in E1 as [_ ->]];
      match goal with |- context [imul env ?q ?t] =>
        destruct (imul_beam env q t) as (Hb & Hz & _) end;
      (split; [exact Hb | simpl; simpl in Hz; rewrite Hz; reflexivity]).
Qed.

Lemma bind_Ok_r {A : Type} (r : result A) : bind r Ok = r.
Proof. destruct r; reflexivity. Qed.

Lemma bind_forget_log (r1 r2 : result Wavefront)
  (k1 k2 : Wavefront -> result Wavefront) :
  res_forget_log r1 = res_forget_log r2 ->
  (forall a b, r1 = Ok a -> r2 = Ok b -> forget_log a = forget_log b ->
               res_forget_log (k1 a) = res_forget_log (k2 b)) ->
  res_forget_log (bind r1 k1) = res_forget_log (bind r2 k2).
Proof.
  intros Hr Hk. destruct r1 as [a|e1], r2 as [b|e2]; simpl in *; try discriminate.
  - apply Hk; try reflexivity. congruence.
  - exact Hr.
Qed.

Lemma beam_z_w0 (s s' : Wavefront) : beam s' = beam s -> z_w0 s' = z_w0 s.
Proof. unfold beam; intros H; injection H; auto. Qed.

Lemma beam_w_0 (s s' : Wavefront) : beam s' = beam s -> w_0 s' = w_0 s.
Proof. unfold beam; intros H; injection H; auto. Qed.

Lemma beam_waists (s s' : Wavefront) :
  beam s' = beam s -> waists_z s' = waists_z s /\ waists_w0 s' = waists_w0 s.
Proof. unfold beam; intros H; injection H; auto. Qed.

Lemma beam_spherical (s s' : Wavefront) : beam s' = beam s -> spherical s' = spherical s.
Proof. unfold beam; intros H; injection H; auto. Qed.

Lemma planar_range_spec (s : Wavefront) (zz : R) :
  planar_range s zz = if spec_in_range_dec s zz then true else false.
Proof. reflexivity. Qed.

(** The result of the dispatch, before the closing shift, in the source and
    in the table. *)
Lemma dispatch_follows_table (env : Env) (delta_z : R) (s : Wavefront) :
  let s0 := set_wavefront (fftshift (wavefront s)) s in
  let sl := log_ DEBUG "Beginning Fresnel Prop. Waist at z = " s0 in
  let zt := z s + delta_z in
  res_forget_log
    (if negb (spherical sl) then
       if planar_range sl zt then
         let s := log_ DEBUG "Plane to Plane Regime, dz=" sl in
         let s := log_ DEBUG "Constant Pixelscale: " s in
         ptp env delta_z s
       else
         let s := log_ DEBUG "Plane to Spherical, inside Z_R to outside Z_R" sl in
         s <- ptp env (z_w0 s - z s) s ;;
         wts env (zt - z_w0 s) s
     else
       if planar_range sl zt then
         let s := log_ DEBUG "Spherical to Plane Regime, outside Z_R to inside Z_R" sl in
         s <- stw env (z_w0 s - z s) s ;;
         ptp env (zt - z_w0 s) s
       else
         let s := log_ DEBUG "Spherical to Spherical, Outside Z_R to waist (z_w0) to outside Z_R" sl in
         let s := log_ DEBUG "Starting Pixelscale: " s in
         s <- stw env (z_w0 s - z s) s ;;
         let s := log_ DEBUG "Intermediate Pixelscale: " s in
         wts env (zt - z_w0 s) s)
  = res_forget_log (run_kernels env (spec_regime_table s delta_z) s0).
Proof.
  intros s0 sl zt. unfold spec_regime_table. rewrite planar_range_spec.
  change (spherical sl) with (spherical s).
  change (spec_in_range_dec sl zt) with (spec_in_range_dec s (z s + delta_z)).
  destruct (spherical s); destruct (spec_in_range_dec s (z s + delta_z)); simpl.
  - (* spherical, in range *)
    apply bind_forget_log; [apply stw_forget_log; reflexivity|].
    intros a b Ha Hb Hab. rewrite bind_Ok_r.
    apply stw_beam in Ha as [Ha _]. apply beam_z_w0 in Ha; rewrite Ha.
    apply ptp_forget_log; exact Hab.
  - (* spherical, out of range *)
    apply bind_forget_log; [apply stw_forget_log; reflexivity|].
    intros a b Ha Hb Hab. rewrite bind_Ok_r.
    apply stw_beam in Ha as [Ha _]. apply beam_z_w0 in Ha; simpl; rewrite Ha.
    apply wts_forget_log; exact Hab.
  - (* planar, in range *)
    rewrite bind_Ok_r. apply ptp_forget_log; reflexivity.
  - (* planar, out of range *)
    apply bind_forget_log; [apply ptp_forget_log; reflexivity|].
    intros a b Ha Hb Hab. rewrite bind_Ok_r.
    apply ptp_beam in Ha as [Ha _]. apply beam_z_w0 in Ha; rewrite Ha.
    apply wts_forget_log; exact Hab.
Qed.

(** The dispatch refines the regime table. *)
Lemma dispatch_refines_table
  (env : Env) (delta_z : R) (s : Wavefront) :
  res_forget_log (propagate_fresnel env delta_z s)
  = res_forget_log (spec_propagate_fresnel env delta_z s)
  /\ match propagate_fresnel env delta_z s with
     | Ok s' => planetype s' = INTERMED
     | Raise _ => True
     end.
Proof.
  split.
  - unfold propagate_fresnel, spec_propagate_fresnel.
    apply bind_forget_log.
    + apply dispatch_follows_table.
    + intros a b _ _ Hab. same_up_to_log Hab. reflexivity.
  - unfold propagate_fresnel.
    match goal with |- match bind ?r _ with _ => _ end => destruct r end;
      simpl; [reflexivity|exact I].
Qed.

(** C1.  Every call [propagate_fresnel(delta_z)] applies the kernels of the
    four-row regime table, where in range means [|z_w0 - z_target| < z_R]
    strictly: up to the records of the logger the call is the shift of the
    field, the kernels of [spec_regime_table] in sequence, the shift back and
    the marking of the plane as intermediate; and whenever the call returns,
    the plane type is intermediate. *)
Theorem propagate_fresnel_follows_regime_table
  (env : Env) (delta_z : R) (s : Wavefront) :
  res_forget_log (propagate_fresnel env delta_z s)
  = res_forget_log (spec_propagate_fresnel env delta_z s)
  /\ match propagate_fresnel env delta_z s with
     | Ok s' => planetype s' = INTERMED
     | Raise _ => True
     end.
Proof. exact (dispatch_refines_table env delta_z s). Qed.

(** ** Totality with numpy's FFT *)

Lemma ptp_numpy (env : Env) (dz : R) (s : Wavefront) :
  USE_FFTW env = false -> exists s', ptp env dz s = Ok s'.
Proof.
  intros H. unfold ptp, fft, inv_fft. rewrite H.
  destruct (Rlt_dec _ _); simpl; eexists; reflexivity.
Qed.

Lemma wts_numpy (env : Env) (dz : R) (s : Wavefront) :
  USE_FFTW env = false -> exists s', wts env dz s = Ok s'.
Proof.
  intros H. unfold wts, fft, inv_fft. rewrite H.
  destruct (Req_dec_T _ _); [eexists; reflexivity|].
  destruct (Rgt_dec _ _); simpl; eexists; reflexivity.
Qed.

Lemma stw_numpy (env : Env) (dz : R) (s : Wavefront) :
  USE_FFTW env = false -> exists s', stw env dz s = Ok s'.
Proof.
  intros H. unfold stw, fft, inv_fft. rewrite H.
  destruct (Req_dec_T _ _); [eexists; reflexivity|].
  destruct (Rgt_dec _ _); simpl; eexists; reflexivity.
Qed.

Lemma run_kernels_numpy (env : Env) (ks : list kernel) (s : Wavefront) :
  USE_FFTW env = false -> exists s', run_kernels env ks s = Ok s'.
Proof.
  intros H. revert s. induction ks as [|k ks IH]; intros s; simpl.
  - eexists; reflexivity.
  - assert (exists s1, run_kernel env k s = Ok s1) as [s1 ->].
    { destruct k; simpl; [apply ptp_numpy|apply wts_numpy|apply stw_numpy]; exact H. }
    simpl. apply IH.
Qed.

Lemma res_forget_log_Ok (r : result Wavefront) (s : Wavefront) :
  res_forget_log r = Ok s -> exists s', r = Ok s' /\ forget_log s' = s.
Proof.
  destruct r; simpl; intros H; [injection H as <-; eexists; eauto|discriminate].
Qed.

(** With numpy's FFT, [propagate_fresnel] returns. *)
Lemma propagate_fresnel_numpy (env : Env) (delta_z : R) (s : Wavefront) :
  USE_FFTW env = false -> exists s', propagate_fresnel env delta_z s = Ok s'.
Proof.
  intros H.
  destruct (dispatch_refines_table env delta_z s) as [Heq _].
  unfold spec_propagate_fresnel in Heq.
  destruct (run_kernels_numpy env (spec_regime_table s delta_z)
              (set_wavefront (fftshift (wavefront s)) s) H) as [s1 E1].
  rewrite E1 in Heq; simpl in Heq.
  destruct (propagate_fresnel env delta_z s); [eexists; reflexivity|discriminate].
Qed.

Lemma run_kernels_z (env : Env) (ks : list kernel) (s s' : Wavefront) :
  run_kernels env ks s = Ok s' ->
  z s' = fold_left (fun z0 k => kernel_z k z0) ks (z s).
Proof.
  revert s. induction ks as [|k ks IH]; intros s; simpl.
  - intros H; injection H as <-; reflexivity.
  - destruct (run_kernel env k s) as [s1|] eqn:E; simpl; [|discriminate].
    intros H. rewrite (IH _ H). f_equal.
    destruct k; simpl in E;
      [apply ptp_beam in E|apply wts_beam in E|apply stw_beam in E]; apply E.
Qed.

Lemma propagate_fresnel_z (env : Env) (delta_z : R) (s s' : Wavefront) :
  propagate_fresnel env delta_z s = Ok s' ->
  z s' = fold_left (fun z0 k => kernel_z k z0) (spec_regime_table s delta_z) (z s).
Proof.
  intros H.
  destruct (dispatch_refines_table env delta_z s) as [Heq _].
  rewrite H in Heq; simpl in Heq. symmetry in Heq.
  apply res_forget_log_Ok in Heq as (s2 & E2 & F2).
  unfold spec_propagate_fresnel in E2.
  destruct (run_kernels env _ _) as [s1|] eqn:E1; simpl in E2; [|discriminate].
  injection E2 as <-. apply run_kernels_z in E1.
  apply (f_equal z) in F2. simpl in F2, E1. rewrite <- F2. exact E1.
Qed.

Lemma ptp_z_exact (dz z0 : R) : ptp_step_exact dz -> ptp_z dz z0 = z0 + dz.
Proof.
  unfold ptp_z, ptp_step_exact. intros [->|H]; destruct (Rlt_dec _ _); lra.
Qed.

Example pupil_2x2_init :
  Wavefront_init [[(1, 0); (0, 0)]; [(0, 0); (0, 0)]] 1 PUPIL 1 1 2 2 true
  = Some pupil_2x2.
Proof. reflexivity. Qed.

Lemma Angstrom_pos : 0 < Angstrom.
Proof. unfold Angstrom. apply Rinv_0_lt_compat, pow_lt. lra. Qed.

Lemma Angstrom_lt_1 : Angstrom < 1.
Proof.
  unfold Angstrom. rewrite <- Rinv_1. apply Rinv_lt_contravar.
  - rewrite Rmult_1_l. apply pow_lt; lra.
  - apply Rlt_pow_R1; [lra|lia].
Qed.

Lemma PI_gt_3 : 3 < PI.
Proof. pose proof PI2_3_2. lra. Qed.

(** ** The axial position after the dispatch *)

(** C3, as stated, fails: from the pupil at [z = 0], asked to advance by
    half an angstrom, the dispatch returns and the axial position is still
    [0]: the target is in range, so the only kernel is [ptp], which skips a
    step shorter than one angstrom. *)
Lemma propagate_fresnel_misses_target_below_one_angstrom :
  exists s', propagate_fresnel numpy_env (Angstrom / 2) pupil_2x2 = Ok s'
             /\ z s' <> z pupil_2x2 + Angstrom / 2.
Proof.
  destruct (propagate_fresnel_numpy numpy_env (Angstrom / 2) pupil_2x2 eq_refl)
    as [s' E].
  exists s'; split; [exact E|].
  rewrite (propagate_fresnel_z _ _ _ _ E).
  pose proof Angstrom_pos as Ha. pose proof Angstrom_lt_1 as Hb.
  pose proof PI_gt_3 as Hpi.
  unfold spec_regime_table; simpl.
  destruct (spec_in_range_dec pupil_2x2 (0 + Angstrom / 2)) as [_|Hn]; simpl.
  - unfold ptp_z. rewrite Rabs_pos_eq by lra.
    destruct (Rlt_dec _ _); lra.
  - exfalso; apply Hn. unfold spec_in_range, z_R; simpl.
    rewrite Rabs_left by lra. lra.
Qed.

(** C3, amended.  After [propagate_fresnel(delta_z)] returns, the axial
    position is the initial one plus [delta_z], provided every plane-to-plane
    step of the row that applies has no length or at least one angstrom. *)
Theorem propagate_fresnel_reaches_target
  (env : Env) (delta_z : R) (s s' : Wavefront) :
  propagate_fresnel env delta_z s = Ok s' ->
  Forall ptp_step_exact (ptp_steps (spec_regime_table s delta_z)) ->
  z s' = z s + delta_z.
Proof.
  intros E H. rewrite (propagate_fresnel_z _ _ _ _ E).
  revert H. unfold spec_regime_table.
  destruct (spherical s); destruct (spec_in_range_dec _ _); simpl; intros H.
  - inversion H; subst. rewrite ptp_z_exact by assumption. lra.
  - lra.
  - inversion H; subst. rewrite ptp_z_exact by assumption. lra.
  - inversion H; subst. rewrite ptp_z_exact by assumption. lra.
Qed.

(** In the row of a spherical wavefront with the target out of range there is
    no plane-to-plane step: the target is always reached. *)
Lemma spherical_out_of_range_reaches_target
  (env : Env) (delta_z : R) (s s' : Wavefront) :
  propagate_fresnel env delta_z s = Ok s' ->
  spherical s = true -> ~ spec_in_range s (z s + delta_z) ->
  z s' = z s + delta_z.
Proof.
  intros E Hs Hr. rewrite (propagate_fresnel_z _ _ _ _ E).
  unfold spec_regime_table. rewrite Hs.
  destruct (spec_in_range_dec _ _); [contradiction|simpl; lra].
Qed.

Lemma propagate_fresnel_reaches_target_witness :
  exists s', propagate_fresnel numpy_env 5 pupil_2x2 = Ok s'
             /\ Forall ptp_step_exact (ptp_steps (spec_regime_table pupil_2x2 5))
             /\ z s' = z pupil_2x2 + 5.
Proof.
  destruct (propagate_fresnel_numpy numpy_env 5 pupil_2x2 eq_refl) as [s' E].
  assert (H : Forall ptp_step_exact (ptp_steps (spec_regime_table pupil_2x2 5))).
  { pose proof Angstrom_pos. pose proof Angstrom_lt_1.
    unfold spec_regime_table; simpl.
    destruct (spec_in_range_dec _ _); simpl; (constructor; [|constructor]).
    - right. rewrite Rabs_pos_eq by lra. lra.
    - left. lra. }
  exists s'. split; [exact E|]. split; [exact H|].
  exact (propagate_fresnel_reaches_target numpy_env 5 pupil_2x2 s' E H).
Defined.

(** ** The spherical flag *)

Lemma run_kernels_beam (env : Env) (ks : list kernel) (s s' : Wavefront) :
  run_kernels env ks s = Ok s' -> beam s' = beam s.
Proof.
  revert s. induction ks as [|k ks IH]; intros s; simpl.
  - intros H; injection H as <-; reflexivity.
  - destruct (run_kernel env k s) as [s1|] eqn:E; simpl; [|discriminate].
    intros H. rewrite (IH _ H).
    destruct k; simpl in E;
      [apply ptp_beam in E|apply wts_beam in E|apply stw_beam in E]; apply E.
Qed.

(** No kernel and no dispatch writes the waist, the wavelength, the
    spherical flag or the history of waists. *)
Lemma propagate_fresnel_beam (env : Env) (delta_z : R) (s s' : Wavefront) :
  propagate_fresnel env delta_z s = Ok s' -> beam s' = beam s.
Proof.
  intros H.
  destruct (dispatch_refines_table env delta_z s) as [Heq _].
  rewrite H in Heq; simpl in Heq. symmetry in Heq.
  apply res_forget_log_Ok in Heq as (s2 & E2 & F2).
  unfold spec_propagate_fresnel in E2.
  destruct (run_kernels env _ _) as [s1|] eqn:E1; simpl in E2; [|discriminate].
  injection E2 as <-. apply run_kernels_beam in E1.
  apply (f_equal beam) in F2. unfold beam in *; simpl in *.
  rewrite <- F2. exact E1.
Qed.

(** C5 fails on the code.  From the planar pupil, a propagation by 5 has its
    target outside the Rayleigh range (which is [pi]), so it ends in [wts];
    it returns with the spherical flag still [False], and the next call
    starts with the plane-to-plane kernel of the planar rows. *)
Theorem spherical_flag_not_set_by_wts :
  spec_regime_table pupil_2x2 5 = [Kptp 0; Kwts 5]
  /\ exists s', propagate_fresnel numpy_env 5 pupil_2x2 = Ok s'
       /\ spherical s' = false
       /\ forall delta_z, exists dz rest,
            spec_regime_table s' delta_z = Kptp dz :: rest.
Proof.
  pose proof PI_4 as Hpi.
  split.
  - unfold spec_regime_table; simpl.
    destruct (spec_in_range_dec _ _) as [Hin|_].
    + exfalso. unfold spec_in_range, z_R in Hin; simpl in Hin.
      rewrite Rabs_left in Hin by lra. lra.
    + repeat f_equal; lra.
  - destruct (propagate_fresnel_numpy numpy_env 5 pupil_2x2 eq_refl) as [s' E].
    exists s'. split; [exact E|].
    pose proof (beam_spherical _ _ (propagate_fresnel_beam _ _ _ _ E)) as Hs.
    simpl in Hs. split; [exact Hs|].
    intros delta_z. unfold spec_regime_table. rewrite Hs.
    destruct (spec_in_range_dec _ _); eexists; eexists; reflexivity.
Qed.

(** ** Calls that change nothing but the log *)

(** C7, as stated, fails for [ptp]: the skipped step is logged at debug
    level; no warning and no error is logged. *)
Lemma ptp_skip_logs_no_warning_or_error :
  exists s', ptp numpy_env 0 pupil_2x2 = Ok s'
             /\ forall r, In r (logged s') -> fst r <> WARNING /\ fst r <> ERROR.
Proof.
  pose proof Angstrom_pos.
  eexists. split.
  - unfold ptp. destruct (Rlt_dec _ _) as [_|Hn]; [reflexivity|].
    exfalso; apply Hn. rewrite Rabs_R0. lra.
  - simpl. intros r [<-|[]]. split; discriminate.
Qed.

(** C7, amended.  [wts(0)], [stw(0)] and [ptp(dz)] with [|dz|] below one
    angstrom return without raising and leave the position, the waist, the
    pixel scale, the field and every other attribute as they were; [wts(0)]
    and [stw(0)] log an error (after the debug record of their entry), and
    [ptp] logs its skip at debug level. *)
Theorem zero_distance_calls_change_nothing (env : Env) (s : Wavefront) (dz : R) :
  no_op_logging (wts env 0 s) s
    [(DEBUG, "Waist to Spherical propagation, dz="%string);
     (ERROR, "Waist to Spherical propagation stopped, no change in distance."%string)]
  /\ no_op_logging (stw env 0 s) s
    [(DEBUG, "Spherical to Waist propagation,dz="%string);
     (ERROR, "Spherical to Waist propagation stopped, no change in distance."%string)]
  /\ (Rabs dz < 1 * Angstrom ->
      no_op_logging (ptp env dz s) s [(DEBUG, "Skipping small dz = "%string)]).
Proof.
  split; [|split].
  - unfold wts. destruct (Req_dec_T 0 0) as [_|Hn]; [|contradiction].
    eexists; split; [reflexivity|]. split; [reflexivity|].
    simpl. rewrite <- app_assoc. reflexivity.
  - unfold stw. destruct (Req_dec_T 0 0) as [_|Hn]; [|contradiction].
    eexists; split; [reflexivity|]. split; [reflexivity|].
    simpl. rewrite <- app_assoc. reflexivity.
  - intros H. unfold ptp. destruct (Rlt_dec _ _) as [_|Hn]; [|contradiction].
    eexists; split; [reflexivity|]. split; reflexivity.
Qed.

Lemma zero_distance_calls_change_nothing_witness :
  Rabs (Angstrom / 2) < 1 * Angstrom
  /\ no_op_logging (ptp fftw_env (Angstrom / 2) pupil_2x2) pupil_2x2
       [(DEBUG, "Skipping small dz = "%string)].
Proof.
  assert (H : Rabs (Angstrom / 2) < 1 * Angstrom).
  { pose proof Angstrom_pos. rewrite Rabs_pos_eq by lra. lra. }
  split; [exact H|].
  exact (proj2 (proj2 (zero_distance_calls_change_nothing fftw_env pupil_2x2
                         (Angstrom / 2))) H).
Defined.

(** ** The lens interaction *)

(** The wavefront at the end of the update of the beam parameters, before a
    delegation to [propagateTo]. *)
Lemma beam_update_inv (env : Env) (optic : GaussianLens) (zl : R)
  (ign : bool) (s : Wavefront) (f : flow) :
  beam_update env optic zl ign s = Ok f ->
  oversample s = optic_oversample optic /\
  exists s1,
    z_w0 s1 = fst (waist_after s optic zl) /\
    w_0 s1 = snd (waist_after s optic zl) /\
    z s1 = z s /\ wavelength s1 = wavelength s /\
    rayl_factor s1 = rayl_factor s /\
    waists_z s1 = waists_z s /\ waists_w0 s1 = waists_w0 s /\
    planetype s1 = planetype s /\ force_fresnel s1 = force_fresnel s /\
    (if delegates s optic
     then exists s2, propagateTo env s1 optic = Ok s2 /\ f = Return s2
     else if ign then f = Return s1
          else f = Continue s1 (R_input_beam_of s)).
Proof.
  unfold beam_update, waist_after, r_curve_at, R_input_beam_of, delegates.
  destruct (Req_dec_T _ _) as [Ho|]; [|discriminate].
  intros H. split; [exact Ho|]. revert H.
  destruct s as [X ps pt hi wl ov nn w0 zz zw ww wz sp ff rf lg]; simpl.
  destruct (Rgt_dec _ _); simpl;
    destruct (is_pupil_or_image pt) eqn:Ept; simpl;
    destruct (xeqb _ _); simpl;
    rewrite ?Ept; simpl;
    (destruct (negb ff && true && _) eqn:Ed || destruct (negb ff && false && _) eqn:Ed);
    simpl;
    try (match goal with |- bind ?r _ = _ -> _ => destruct r as [s2|] eqn:E2 end;
         simpl; [|discriminate]);
    try destruct ign; intros H; injection H as <-;
    (first [ match goal with
             | E : propagateTo _ ?a _ = Ok _ |- _ => exists a
             end
           | match goal with
             | |- context [Return ?a = _] => exists a
             | |- context [Continue ?a _ = _] => exists a
             end ]);
    (repeat (split; [reflexivity|])); simpl; eauto.
Qed.

Ltac efl_cases :=
  unfold effective_focal_length, bindD, recip, ret;
  repeat match goal with
         | |- context [if negb ?b && _ then _ else _] => destruct b; simpl
         | |- context [Rlt_dec ?a ?b] => destruct (Rlt_dec a b); simpl
         | |- context [Rgt_dec ?a ?b] => destruct (Rgt_dec a b); simpl
         | |- context [xeqb ?a ?b] => destruct (xeqb a b); simpl
         | |- context [Req_dec_T ?a ?b] => destruct (Req_dec_T a b); simpl
         end.

(** The choice of the effective focal length writes the spherical flag and
    the log, nothing else. *)
Lemma effective_focal_length_state (optic : GaussianLens) (zl : R)
  (Rin : xreal) (s : Wavefront) :
  let s' := fst (fst (effective_focal_length optic zl Rin s)) in
  z_w0 s' = z_w0 s /\ w_0 s' = w_0 s /\ z s' = z s /\
  wavelength s' = wavelength s /\ waists_z s' = waists_z s /\
  waists_w0 s' = waists_w0 s /\ wavefront s' = wavefront s /\
  pixelscale s' = pixelscale s /\ planetype s' = planetype s.
Proof.
  destruct s as [X ps pt hi wl ov nn w0 zz zw ww wz sp ff rf lg]; simpl.
  efl_cases; repeat split.
Qed.

Lemma imul_waists (env : Env) (q : QuadPhase) (s : Wavefront) :
  waists_z (imul env q s) = waists_z s /\ waists_w0 (imul env q s) = waists_w0 s
  /\ z_w0 (imul env q s) = z_w0 s /\ w_0 (imul env q s) = w_0 s.
Proof.
  unfold imul, getPhasor. destruct (coordinates env _ _ _); repeat split.
Qed.

(** How a call of [apply_optic] that returns has run. *)
Lemma apply_optic_inv (env : Env) (optic : GaussianLens) (zl : R)
  (ign : bool) (s s' : Wavefront) :
  apply_optic env optic zl ign s = Ok s' ->
  exists f, beam_update env optic zl ign s = Ok f /\
    match f with
    | Return s1 => s' = s1
    | Continue s1 Rin =>
        exists z_eff,
          snd (fst (effective_focal_length optic zl Rin s1)) = Some z_eff /\
          z_w0 s' = z_w0 s1 /\ w_0 s' = w_0 s1 /\
          waists_z s' = waists_z s1 ++ [z_w0 s1] /\
          waists_w0 s' = waists_w0 s1 ++ [w_0 s1]
    end.
Proof.
  unfold apply_optic.
  destruct (beam_update env optic zl ign s) as [f|] eqn:E; simpl; [|discriminate].
  intros H. exists f. split; [reflexivity|].
  destruct f as [s1|s1 Rin].
  - injection H as <-. reflexivity.
  - pose proof (effective_focal_length_state optic zl Rin s1) as Hs.
    destruct (effective_focal_length optic zl Rin s1) as [[s2 ze] ds].
    simpl in *. destruct ze as [z_eff|]; [|discriminate].
    injection H as <-. exists z_eff. split; [reflexivity|].
    destruct Hs as (Hzw & Hw & _ & _ & Hwz & Hww & _).
    match goal with |- context [imul env ?q ?t] =>
      destruct (imul_waists env q t) as (I1 & I2 & I3 & I4) end.
    simpl. rewrite I1, I2, I3, I4, Hzw, Hw, Hwz, Hww. repeat split.
Qed.

(** The waist that a returning call of [apply_optic] leaves. *)
Lemma apply_optic_waist (env : Env) (optic : GaussianLens) (zl : R)
  (ign : bool) (s s' : Wavefront) :
  base_class_propagateTo env ->
  apply_optic env optic zl ign s = Ok s' ->
  z_w0 s' = fst (waist_after s optic zl) /\ w_0 s' = snd (waist_after s optic zl).
Proof.
  intros Hb H. apply apply_optic_inv in H as (f & E & Hf).
  apply beam_update_inv in E as (_ & s1 & Hzw & Hw & _ & _ & _ & _ & _ & _ & _ & Hc).
  destruct (delegates s optic).
  - destruct Hc as (s2 & E2 & ->). subst s'.
    destruct (Hb s1 optic) as (s3 & E3 & B3). rewrite E2 in E3; injection E3 as <-.
    rewrite (beam_z_w0 _ _ B3), (beam_w_0 _ _ B3). auto.
  - destruct ign; subst f.
    + subst s'. auto.
    + destruct Hf as (ze & _ & -> & -> & _). auto.
Qed.

(** A call of [apply_optic] that only updates the beam parameters
    returns. *)
Lemma apply_optic_ignore_returns (env : Env) (optic : GaussianLens) (zl : R)
  (s : Wavefront) :
  base_class_propagateTo env ->
  oversample s = optic_oversample optic ->
  exists s', apply_optic env optic zl true s = Ok s'.
Proof.
  intros Hb Ho. unfold apply_optic, beam_update.
  destruct (Req_dec_T _ _); [|contradiction].
  repeat match goal with
         | |- context [let '(_, _) := (if ?c then _ else _) in _] => destruct c
         end; simpl;
  match goal with
  | |- context [if ?c then _ else _] => destruct c
  end; simpl;
  try (match goal with |- context [propagateTo env ?a ?o] =>
         destruct (Hb a o) as (s2 & -> & _) end; simpl);
  eexists; reflexivity.
Qed.

Lemma numpy_env_propagateTo : base_class_propagateTo numpy_env.
Proof. intros s optic. exists s. split; reflexivity. Qed.

Lemma spot_radius_at_waist (s : Wavefront) : spot_radius s (z_w0 s) = w_0 s.
Proof.
  unfold spot_radius.
  replace (1 + ((z_w0 s - z_w0 s) / z_R s) ^ 2) with 1
    by (unfold Rdiv; ring).
  rewrite sqrt_1. ring.
Qed.

Lemma R_c_at_waist (s : Wavefront) : R_c s (z_w0 s) = PInf.
Proof.
  unfold R_c. destruct (Req_dec_T _ _) as [_|Hn]; [reflexivity|].
  exfalso; apply Hn; ring.
Qed.

(** The two parts of the waist update, shared by what follows. *)
Lemma apply_optic_sets_waist_aux
  (env : Env) (optic : GaussianLens) (s : Wavefront) (W zl : R) :
  base_class_propagateTo env ->
  oversample s = optic_oversample optic ->
  (planetype s = PUPIL -> z_w0 s = 0 -> w_0 s = W ->
   0 < W -> 0 < wavelength s -> fl optic <> 0 ->
   exists s', apply_optic env optic 0 true s = Ok s'
     /\ z_w0 s' = lens_waist_position (wavelength s) W (fl optic)
     /\ w_0 s' = lens_waist_radius (wavelength s) W (fl optic))
  /\ (R_c s zl = Fin (fl optic) ->
      (exists s', apply_optic env optic zl true s = Ok s')
      /\ forall ign s', apply_optic env optic zl ign s = Ok s' ->
           z_w0 s' = zl /\ w_0 s' = spot_radius s zl).
Proof.
  intros Hb Ho. split.
  - intros Hp Hz Hw HW Hl Hf.
    destruct (apply_optic_ignore_returns env optic 0 s Hb Ho) as [s' E].
    exists s'. split; [exact E|].
    destruct (apply_optic_waist env optic 0 true s s' Hb E) as [-> ->].
    unfold waist_after, r_curve_at. rewrite Hp.
    rewrite <- Hz, R_c_at_waist, spot_radius_at_waist.
    cbn [fst snd xeqb is_pupil_or_image PlaneType_eqb orb].
    rewrite Hw, Hz. unfold lens_waist_position, lens_waist_radius.
    split.
    + replace (wavelength s * - fl optic / (PI * W ^ 2))
        with (- (wavelength s * fl optic / (PI * W ^ 2))) by (unfold Rdiv; ring).
      replace ((- (wavelength s * fl optic / (PI * W ^ 2))) ^ 2)
        with ((wavelength s * fl optic / (PI * W ^ 2)) ^ 2) by ring.
      unfold Rdiv; ring.
    + replace (PI * W ^ 2 / (wavelength s * - fl optic))
        with (- (PI * W ^ 2 / (wavelength s * fl optic)))
        by (field; split; lra).
      replace ((- (PI * W ^ 2 / (wavelength s * fl optic))) ^ 2)
        with ((PI * W ^ 2 / (wavelength s * fl optic)) ^ 2) by ring.
      reflexivity.
  - intros HR. split; [apply apply_optic_ignore_returns; assumption|].
    intros ign s' E.
    destruct (apply_optic_waist env optic zl ign s s' Hb E) as [-> ->].
    unfold waist_after. rewrite HR; simpl.
    destruct (Req_dec_T _ _); [|contradiction]. split; reflexivity.
Qed.

(** C2.  (1) For a wavefront at a pupil plane with its waist at [z = 0] and
    waist radius [W], [apply_optic] with a lens of focal length [f] at
    [z_lens = 0] and [ignore_wavefront=True] returns with the waist at
    [f / (1 + (lambda f / (pi W^2))^2)] and the waist radius
    [W / sqrt (1 + (pi W^2 / (lambda f))^2)] of the Gaussian beam through a
    lens.  (2) When [R_c(z_lens)] is exactly the focal length, a call of
    [apply_optic] sets [z_w0 = z_lens] and [w_0 = spot_radius(z_lens)]. *)
Theorem apply_optic_sets_waist
  (env : Env) (optic : GaussianLens) (s : Wavefront) (W zl : R) :
  base_class_propagateTo env ->
  oversample s = optic_oversample optic ->
  (planetype s = PUPIL -> z_w0 s = 0 -> w_0 s = W ->
   0 < W -> 0 < wavelength s -> fl optic <> 0 ->
   exists s', apply_optic env optic 0 true s = Ok s'
     /\ z_w0 s' = lens_waist_position (wavelength s) W (fl optic)
     /\ w_0 s' = lens_waist_radius (wavelength s) W (fl optic))
  /\ (R_c s zl = Fin (fl optic) ->
      (exists s', apply_optic env optic zl true s = Ok s')
      /\ forall ign s', apply_optic env optic zl ign s = Ok s' ->
           z_w0 s' = zl /\ w_0 s' = spot_radius s zl).
Proof. exact (apply_optic_sets_waist_aux env optic s W zl). Qed.

Lemma pupil_2x2_R_c_is_2 : R_c pupil_2x2 PI = Fin (2 * PI).
Proof.
  pose proof PI_gt_3. unfold R_c, z_R; simpl.
  destruct (Req_dec_T _ _); [lra|]. f_equal. field. lra.
Qed.

Lemma apply_optic_sets_waist_witness :
  (exists s', apply_optic numpy_env unit_lens 0 true pupil_2x2 = Ok s'
     /\ z_w0 s' = lens_waist_position 1 1 1
     /\ w_0 s' = lens_waist_radius 1 1 1)
  /\ (exists s', apply_optic numpy_env (mkGaussianLens (2 * PI) INTERMED 2 1)
                   PI true pupil_2x2 = Ok s')
  /\ forall ign s',
       apply_optic numpy_env (mkGaussianLens (2 * PI) INTERMED 2 1)
         PI ign pupil_2x2 = Ok s' ->
       z_w0 s' = PI /\ w_0 s' = spot_radius pupil_2x2 PI.
Proof.
  split.
  - apply (apply_optic_sets_waist numpy_env unit_lens pupil_2x2 1 0
             numpy_env_propagateTo eq_refl);
      simpl; try reflexivity; lra.
  - exact (proj2 (apply_optic_sets_waist numpy_env
                    (mkGaussianLens (2 * PI) INTERMED 2 1) pupil_2x2 1 PI
                    numpy_env_propagateTo eq_refl) pupil_2x2_R_c_is_2).
Defined.

(** ** The history of waists *)

(** What a returning call of [apply_optic] does to the two lists: nothing
    when the call delegates to [propagateTo] or is told to ignore the
    wavefront, one entry appended to each otherwise. *)
Lemma apply_optic_waists (env : Env) (optic : GaussianLens) (zl : R)
  (ign : bool) (s s' : Wavefront) :
  base_class_propagateTo env ->
  apply_optic env optic zl ign s = Ok s' ->
  if delegates s optic || ign
  then waists_z s' = waists_z s /\ waists_w0 s' = waists_w0 s
  else waists_z s' = waists_z s ++ [z_w0 s']
       /\ waists_w0 s' = waists_w0 s ++ [w_0 s'].
Proof.
  intros Hb H. apply apply_optic_inv in H as (f & E & Hf).
  apply beam_update_inv in E
    as (_ & s1 & _ & _ & _ & _ & _ & Hwz & Hww & _ & _ & Hc).
  destruct (delegates s optic); simpl.
  - destruct Hc as (s2 & E2 & ->). subst s'.
    destruct (Hb s1 optic) as (s3 & E3 & B3). rewrite E2 in E3; injection E3 as <-.
    destruct (beam_waists _ _ B3) as [-> ->]. auto.
  - destruct ign; subst f.
    + subst s'. auto.
    + destruct Hf as (ze & _ & -> & -> & -> & ->). rewrite Hwz, Hww. auto.
Qed.

(** The two lists stay parallel, and a call only ever appends to them. *)
Lemma apply_optic_waists_parallel (env : Env) (optic : GaussianLens) (zl : R)
  (ign : bool) (s s' : Wavefront) :
  base_class_propagateTo env ->
  apply_optic env optic zl ign s = Ok s' ->
  List.length (waists_z s) = List.length (waists_w0 s) ->
  List.length (waists_z s') = List.length (waists_w0 s')
  /\ exists az aw, waists_z s' = waists_z s ++ az
                   /\ waists_w0 s' = waists_w0 s ++ aw.
Proof.
  intros Hb H Hl. pose proof (apply_optic_waists _ _ _ _ _ _ Hb H) as Hw.
  destruct (delegates s optic || ign); destruct Hw as [-> ->].
  - split; [exact Hl|]. exists [], []. rewrite !app_nil_r. auto.
  - split; [rewrite !length_app; simpl; lia|]. eauto.
Qed.

Lemma lens_waist_position_unit_pos : 0 < lens_waist_position 1 1 1.
Proof.
  unfold lens_waist_position.
  pose proof (pow2_ge_0 (1 * 1 / (PI * 1 ^ 2))).
  apply Rdiv_lt_0_compat; lra.
Qed.

(** C8 fails on the code.  From the pupil, [apply_optic] with the unit lens
    and [ignore_wavefront=True] returns with a new waist position and a new
    waist radius, and neither list has received an entry: the call returns
    before the two [append]. *)
Theorem waists_not_appended_when_wavefront_ignored :
  exists s', apply_optic numpy_env unit_lens 0 true pupil_2x2 = Ok s'
    /\ z_w0 s' = lens_waist_position 1 1 1
    /\ w_0 s' = lens_waist_radius 1 1 1
    /\ z_w0 s' <> z_w0 pupil_2x2
    /\ waists_z s' = waists_z pupil_2x2
    /\ waists_w0 s' = waists_w0 pupil_2x2.
Proof.
  destruct (apply_optic_ignore_returns numpy_env unit_lens 0 pupil_2x2
              numpy_env_propagateTo eq_refl) as [s' E].
  exists s'. split; [exact E|].
  destruct (proj1 (apply_optic_sets_waist_aux numpy_env unit_lens pupil_2x2 1 0
                     numpy_env_propagateTo eq_refl)
              eq_refl eq_refl eq_refl ltac:(lra) ltac:(simpl; lra) ltac:(simpl; lra))
    as (s2 & E2 & Hz & Hw).
  rewrite E in E2; injection E2 as <-.
  pose proof (apply_optic_waists _ _ _ _ _ _ numpy_env_propagateTo E) as Hl.
  rewrite orb_true_r in Hl. destruct Hl as [Hl1 Hl2].
  pose proof lens_waist_position_unit_pos.
  repeat split; try assumption. rewrite Hz; simpl. lra.
Qed.

(** ** The local [R_input_beam] *)

(** The first part of [apply_optic] returns when the oversamplings agree. *)
Lemma beam_update_returns (env : Env) (optic : GaussianLens) (zl : R)
  (ign : bool) (s : Wavefront) :
  base_class_propagateTo env ->
  oversample s = optic_oversample optic ->
  exists f, beam_update env optic zl ign s = Ok f.
Proof.
  intros Hb Ho. unfold beam_update.
  destruct (Req_dec_T _ _); [|contradiction].
  repeat match goal with
         | |- context [let '(_, _) := (if ?c then _ else _) in _] => destruct c
         end; simpl;
  match goal with
  | |- context [if ?c then _ else _] => destruct c
  end; simpl;
  try (match goal with |- context [propagateTo env ?a ?o] =>
         destruct (Hb a o) as (s2 & -> & _) end; simpl);
  try destruct ign; eexists; reflexivity.
Qed.

Lemma z_R_pos (s : Wavefront) : 0 < w_0 s -> 0 < wavelength s -> 0 < z_R s.
Proof.
  intros Hw Hl. unfold z_R. pose proof PI_RGT_0.
  apply Rdiv_lt_0_compat; [|exact Hl].
  apply Rmult_lt_0_compat; [assumption|]. apply pow_lt; exact Hw.
Qed.

Lemma R_input_beam_of_nonzero (s : Wavefront) :
  0 < w_0 s -> 0 < wavelength s -> 0 <= rayl_factor s ->
  xeqb (R_input_beam_of s) 0 = false.
Proof.
  intros Hw Hl Hr. pose proof (z_R_pos s Hw Hl) as HzR.
  unfold R_input_beam_of. destruct (Rgt_dec _ _) as [Hgt|_]; [|reflexivity].
  simpl. destruct (Req_dec_T _ _) as [E|_]; [|reflexivity].
  exfalso. replace (z_w0 s - z s) with (- (z s - z_w0 s)) in Hgt by ring.
  rewrite E, Ropp_0, Rabs_R0 in Hgt.
  assert (0 <= rayl_factor s * z_R s) by (apply Rmult_le_pos; lra). lra.
Qed.

(** C10, as stated, fails: with [rayl_factor = -1] and the wavefront at its
    waist, of radius 1, [R_input_beam] is exactly zero. *)
Lemma R_input_beam_zero_with_negative_rayl_factor :
  0 < w_0 pupil_negative_rayl
  /\ exists s1,
       beam_update numpy_env unit_lens 0 false pupil_negative_rayl
       = Ok (Continue s1 (Fin 0)).
Proof.
  split; [simpl; lra|].
  destruct (beam_update_returns numpy_env unit_lens 0 false pupil_negative_rayl
              numpy_env_propagateTo eq_refl) as [f E].
  destruct (beam_update_inv _ _ _ _ _ _ E) as (_ & s1 & _ & _ & _ & _ & _ & _ & _ & _ & _ & Hc).
  simpl in Hc. subst f. exists s1. rewrite E. do 2 f_equal.
  unfold R_input_beam_of, z_R; simpl.
  pose proof PI_RGT_0.
  destruct (Rgt_dec _ _) as [_|Hn].
  - f_equal; lra.
  - exfalso; apply Hn. rewrite Rminus_diag, Rabs_R0. lra.
Qed.

(** C10, amended.  In a call of [apply_optic] with a positive waist radius, a
    positive wavelength and a non-negative [rayl_factor], [z_R] is positive
    and [R_input_beam] is never exactly zero: it is infinite, or it is
    [z - z_w0] with [|z_w0 - z| > rayl_factor * z_R >= 0]. *)
Theorem R_input_beam_never_zero (env : Env) (optic : GaussianLens) (zl : R)
  (ign : bool) (s s1 : Wavefront) (Rin : xreal) :
  0 < w_0 s -> 0 < wavelength s -> 0 <= rayl_factor s ->
  beam_update env optic zl ign s = Ok (Continue s1 Rin) ->
  0 < z_R s /\ xeqb Rin 0 = false
  /\ (Rin = PInf \/
      (Rin = Fin (z s - z_w0 s) /\ Rabs (z_w0 s - z s) > rayl_factor s * z_R s)).
Proof.
  intros Hw Hl Hr E.
  destruct (beam_update_inv _ _ _ _ _ _ E) as (_ & s2 & _ & _ & _ & _ & _ & _ & _ & _ & _ & Hc).
  assert (Rin = R_input_beam_of s) as ->.
  { destruct (delegates s optic); [destruct Hc as (? & _ & ?); discriminate|].
    destruct ign; [discriminate|]. injection Hc; auto. }
  split; [apply z_R_pos; assumption|].
  split; [apply R_input_beam_of_nonzero; assumption|].
  unfold R_input_beam_of. destruct (Rgt_dec _ _); auto.
Qed.

Lemma R_input_beam_never_zero_witness :
  exists s1 Rin,
    beam_update numpy_env unit_lens 0 false pupil_2x2 = Ok (Continue s1 Rin)
    /\ 0 < z_R pupil_2x2 /\ xeqb Rin 0 = false.
Proof.
  destruct (beam_update_returns numpy_env unit_lens 0 false pupil_2x2
              numpy_env_propagateTo eq_refl) as [f E].
  destruct (beam_update_inv _ _ _ _ _ _ E)
    as (_ & s1 & _ & _ & _ & _ & _ & _ & _ & _ & _ & Hc).
  simpl in Hc. subst f. exists s1, (R_input_beam_of pupil_2x2).
  split; [exact E|].
  destruct (R_input_beam_never_zero numpy_env unit_lens 0 false pupil_2x2 s1
              (R_input_beam_of pupil_2x2)) as (H1 & H2 & _);
    [simpl; lra|simpl; lra|simpl; lra|exact E|].
  split; [exact H1|exact H2].
Defined.

(** ** The divisions of the effective focal length *)

Lemma beam_update_spherical (env : Env) (optic : GaussianLens) (zl : R)
  (s s1 : Wavefront) (Rin : xreal) :
  beam_update env optic zl false s = Ok (Continue s1 Rin) ->
  spherical s1 = match R_input_beam_of s with
                 | Fin _ => true
                 | PInf => spherical s
                 end.
Proof.
  unfold beam_update, R_input_beam_of.
  destruct (Req_dec_T _ _) as [Ho|]; [|discriminate].
  destruct s as [X ps pt hi wl ov nn w0 zz zw ww wz sp ff rf lg]; simpl.
  destruct (Rgt_dec _ _); simpl;
    destruct (is_pupil_or_image pt) eqn:Ept; simpl;
    destruct (xeqb _ _); simpl;
    rewrite ?Ept; simpl;
    (destruct (negb ff && true && _) eqn:Ed || destruct (negb ff && false && _) eqn:Ed);
    simpl;
    try (match goal with |- bind ?r _ = _ -> _ => destruct r as [s2|] eqn:E2 end;
         simpl; [|discriminate]);
    intros H; try discriminate; injection H as <- _; reflexivity.
Qed.

Lemma diverging_beam_z_R : z_R diverging_beam = 1.
Proof. pose proof PI_RGT_0. unfold z_R; simpl. field. lra. Qed.

Lemma diverging_beam_spot : spot_radius diverging_beam 3 = sqrt 10.
Proof.
  unfold spot_radius. rewrite diverging_beam_z_R.
  change (z_w0 diverging_beam) with 0. change (w_0 diverging_beam) with 1.
  replace (1 + ((3 - 0) / 1) ^ 2) with 10 by field. ring.
Qed.

Lemma diverging_beam_R_c : R_c diverging_beam 3 = Fin (10 / 3).
Proof.
  unfold R_c. rewrite diverging_beam_z_R.
  change (z_w0 diverging_beam) with 0.
  destruct (Req_dec_T _ _); [lra|]. f_equal. field.
Qed.

Lemma diverging_beam_waist_after :
  fst (waist_after diverging_beam collimating_lens 3) = 6
  /\ snd (waist_after diverging_beam collimating_lens 3) ^ 2 = 9.
Proof.
  pose proof PI_RGT_0 as Hpi.
  assert (H10 : sqrt 10 ^ 2 = 10) by (apply pow2_sqrt; lra).
  unfold waist_after, r_curve_at.
  rewrite diverging_beam_R_c, diverging_beam_spot.
  change (planetype diverging_beam) with INTERMED.
  change (wavelength diverging_beam) with PI.
  change (fl collimating_lens) with 3.
  cbn [is_pupil_or_image PlaneType_eqb orb xeqb xrecip].
  destruct (Req_dec_T (10 / 3) 3); [lra|].
  cbn [fst snd]. rewrite H10.
  replace (1 / (1 / (10 / 3) - 1 / 3)) with (-30) by (field; lra).
  split.
  - replace (PI * -30 / (PI * 10)) with (-3) by (field; lra). field.
  - replace (PI * 10 / (PI * -30)) with (- (1 / 3)) by (field; lra).
    replace (1 + (- (1 / 3)) ^ 2) with (10 / 9) by field.
    assert (H9 : sqrt (10 / 9) ^ 2 = 10 / 9) by (apply pow2_sqrt; lra).
    assert (Hs : sqrt (10 / 9) <> 0).
    { intros Hc. rewrite Hc in H9. lra. }
    replace ((sqrt 10 / sqrt (10 / 9)) ^ 2)
      with (sqrt 10 ^ 2 / sqrt (10 / 9) ^ 2) by (field; exact Hs).
    rewrite H10, H9. field.
Qed.

(** In the spherical-to-spherical case the effective focal length is always
    the one assigned by the second conditional, whatever the first has
    assigned; and when the test [R_input_beam == 0] holds, the division by
    [R_input_beam] is a division by zero. *)
Lemma spherical_to_spherical_z_eff (optic : GaussianLens) (zl : R)
  (Rin : xreal) (s : Wavefront) :
  spherical s = true -> Rabs (z_w0 s - zl) > z_R s ->
  snd (fst (effective_focal_length optic zl Rin s))
  = Some (if Req_dec_T (zl - z_w0 s) 0
          then 1 / (1 / fl optic + 1 / (z s - z_w0 s))
          else 1 / (1 / fl optic + 1 / (z s - z_w0 s) - xrecip Rin))
  /\ (xeqb Rin 0 = true ->
      In (Fin 0) (snd (effective_focal_length optic zl Rin s))).
Proof.
  intros Hs Hgt. unfold effective_focal_length. rewrite Hs. simpl negb.
  cbn [andb]. destruct (Rgt_dec _ _); [|contradiction]. simpl.
  unfold bindD, recip, ret.
  destruct (xeqb Rin 0) eqn:Ex; destruct (Req_dec_T _ _); simpl;
    (split; [reflexivity|]); intros Hx; try discriminate.
  - destruct Rin as [v|]; [|discriminate]. simpl in Ex.
    destruct (Req_dec_T v 0); [subst; auto|discriminate].
  - destruct Rin as [v|]; [|discriminate]. simpl in Ex.
    destruct (Req_dec_T v 0); [subst; auto|discriminate].
Qed.

(** C6 fails on the code.  The beam of [diverging_beam] is at three Rayleigh
    distances from its waist; the lens has that distance as focal length.
    The call reaches the choice of the effective focal length with
    [R_input_beam = 3], takes the spherical-to-planar case and evaluates
    [1.0 / (1.0/fl - 1.0/R_input_beam)]: a division by exactly zero. *)
Theorem collimating_lens_divides_by_zero :
  exists s1,
    beam_update numpy_env collimating_lens 3 false diverging_beam
    = Ok (Continue s1 (Fin (3 - 0)))
    /\ In (Fin 0) (snd (effective_focal_length collimating_lens 3 (Fin (3 - 0)) s1)).
Proof.
  pose proof PI_RGT_0 as Hpi.
  destruct (beam_update_returns numpy_env collimating_lens 3 false diverging_beam
              numpy_env_propagateTo eq_refl) as [f E].
  destruct (beam_update_inv _ _ _ _ _ _ E)
    as (_ & s1 & Hzw & Hw & Hz & Hl & _ & _ & _ & _ & _ & Hc).
  simpl in Hc. subst f.
  assert (HR : R_input_beam_of diverging_beam = Fin (3 - 0)).
  { unfold R_input_beam_of. rewrite diverging_beam_z_R. simpl.
    destruct (Rgt_dec _ _) as [_|Hn]; [reflexivity|].
    exfalso; apply Hn. rewrite Rabs_left; lra. }
  pose proof (beam_update_spherical _ _ _ _ _ _ E) as Hs.
  rewrite HR in Hs, E. exists s1. split; [exact E|].
  destruct diverging_beam_waist_after as [H6 H9].
  rewrite H6 in Hzw. rewrite <- Hw in H9.
  assert (HzR : z_R s1 = 9).
  { unfold z_R. rewrite H9, Hl. simpl. field. lra. }
  unfold effective_focal_length. rewrite Hs, Hzw, HzR. cbn [negb andb].
  destruct (Rgt_dec _ _) as [Hgt|_].
  { exfalso. rewrite Rabs_pos_eq in Hgt; lra. }
  destruct (Rlt_dec _ _) as [_|Hn].
  2: { exfalso; apply Hn. rewrite Rabs_pos_eq; lra. }
  cbn [andb]. unfold bindD, recip, ret. simpl.
  right; right; left. f_equal. field.
Qed.

(** ** The FFT pair *)

Lemma Cexp_imaginary (t : R) : Cexp (0, t) = (cos t, sin t).
Proof. unfold Cexp; simpl. rewrite exp_0. f_equal; ring. Qed.

Lemma twiddle_one (sgn : R) (j k : nat) (N : R) :
  (j * k = 0)%nat -> Cexp (0, sgn * (2 * PI * INR j * INR k / N)) = (1, 0).
Proof.
  intros H. rewrite Cexp_imaginary.
  replace (sgn * (2 * PI * INR j * INR k / N)) with 0.
  - rewrite cos_0, sin_0. reflexivity.
  - replace (2 * PI * INR j * INR k) with (2 * PI * INR (j * k))
      by (rewrite mult_INR; ring).
    rewrite H. simpl. unfold Rdiv. ring.
Qed.

Lemma twiddle_half (sgn : R) :
  sgn = 1 \/ sgn = -1 ->
  Cexp (0, sgn * (2 * PI * INR 1 * INR 1 / INR 2)) = (-1, 0).
Proof.
  intros [-> | ->]; rewrite Cexp_imaginary; simpl.
  - replace (1 * (2 * PI * 1 * 1 / (1 + 1))) with PI by field.
    rewrite cos_PI, sin_PI. reflexivity.
  - replace (-1 * (2 * PI * 1 * 1 / (1 + 1))) with (- PI) by field.
    rewrite cos_neg, sin_neg, cos_PI, sin_PI. f_equal; ring.
Qed.

(** The transform of a list of two samples. *)
Lemma dft1_two (sgn : R) (a b : C) :
  sgn = 1 \/ sgn = -1 -> dft1 sgn [a; b] = butterfly a b.
Proof.
  intros Hs. unfold dft1, butterfly.
  cbn [List.length seq map map2 fold_right].
  rewrite !(twiddle_one sgn 0 0), !(twiddle_one sgn 0 1), !(twiddle_one sgn 1 0)
    by reflexivity.
  rewrite (twiddle_half sgn Hs).
  unfold Cadd, Cmult; simpl.
  f_equal; [f_equal; ring|]. f_equal. f_equal; ring.
Qed.

Lemma rect_2x2 {A : Type} (X : list (list A)) :
  rect X 2 2 -> exists a b c d, X = [[a; b]; [c; d]].
Proof.
  intros [Hl Hr].
  destruct X as [|r1 [|r2 [|]]]; try discriminate.
  inversion Hr as [|? ? H1 Hr']; subst. inversion Hr' as [|? ? H2 _]; subst.
  destruct r1 as [|a [|b [|]]]; try discriminate.
  destruct r2 as [|c [|d [|]]]; try discriminate.
  exists a, b, c, d. reflexivity.
Qed.

Lemma rect_2x2_intro {A : Type} (a b c d : A) : rect [[a; b]; [c; d]] 2 2.
Proof. split; [reflexivity|]. repeat constructor. Qed.

Ltac dft_2x2 :=
  unfold dft2, idft2, idft1, arr_map;
  repeat (cbn [map transpose map2 List.length fst snd];
          rewrite ?dft1_two by auto; unfold butterfly).

Ltac arr_eq :=
  repeat match goal with
         | |- (_ :: _) = (_ :: _) => f_equal
         | |- (_, _) = (_, _) => f_equal
         | |- @nil _ = @nil _ => reflexivity
         end.

(** The transform of a two-by-two array. *)
Lemma dft2_2x2 (a b c d : C) :
  dft2 [[a; b]; [c; d]]
  = [[(fst a + fst b + (fst c + fst d), snd a + snd b + (snd c + snd d));
      (fst a - fst b + (fst c - fst d), snd a - snd b + (snd c - snd d))];
     [(fst a + fst b - (fst c + fst d), snd a + snd b - (snd c + snd d));
      (fst a - fst b - (fst c - fst d), snd a - snd b - (snd c - snd d))]].
Proof. dft_2x2. reflexivity. Qed.

(** On two-by-two arrays the Fourier transforms of [numpy_env] meet the
    contract. *)
Lemma numpy_env_contract : fft_contract numpy_env 2 2.
Proof.
  constructor; intros X; intros;
    match goal with H : rect X 2 2 |- _ =>
      destruct (rect_2x2 X H) as ([ar ai] & [br bi] & [cr ci] & [dr di] & ->)
    end; simpl np_fft2; simpl np_ifft2.
  - dft_2x2. apply rect_2x2_intro.
  - dft_2x2. apply rect_2x2_intro.
  - dft_2x2. unfold Cdivr. cbn [fst snd INR]. arr_eq; field.
  - dft_2x2. unfold Cdivr. cbn [fst snd INR]. arr_eq; field.
  - dft_2x2. unfold Cmulr. cbn [fst snd]. arr_eq; ring.
  - dft_2x2. unfold Cdivr. cbn [fst snd INR]. arr_eq; unfold Rdiv; ring.
Qed.

Lemma arr_map_shape0 {A B : Type} (f : A -> B) (X : list (list A)) :
  shape0 (arr_map f X) = shape0 X.
Proof. unfold shape0, arr_map. apply length_map. Qed.

Lemma arr_map_arr_map {A B D : Type} (f : A -> B) (g : B -> D)
  (X : list (list A)) :
  arr_map g (arr_map f X) = arr_map (fun v => g (f v)) X.
Proof.
  unfold arr_map. rewrite map_map. apply map_ext. intros row. apply map_map.
Qed.

Lemma arr_map_id {A : Type} (f : A -> A) (X : list (list A)) :
  (forall v, f v = v) -> arr_map f X = X.
Proof.
  intros H. unfold arr_map.
  rewrite (map_ext _ (fun row => row)); [apply map_id|].
  intros row. rewrite (map_ext _ (fun v => v)); [apply map_id|exact H].
Qed.

Lemma arr_map_rect {A B : Type} (f : A -> B) (X : list (list A)) (r c : nat) :
  rect X r c -> rect (arr_map f X) r c.
Proof.
  intros [Hl Hr]. split.
  - unfold arr_map. rewrite length_map. exact Hl.
  - unfold arr_map. apply Forall_map.
    eapply Forall_impl; [|exact Hr]. simpl. intros row H.
    rewrite length_map. exact H.
Qed.

Lemma Cmulr_Cdivr (v : C) (k : R) : k <> 0 -> Cmulr (Cdivr v k) k = v.
Proof.
  intros H. destruct v as [a b]. unfold Cmulr, Cdivr; simpl. f_equal; field; exact H.
Qed.

Lemma Cdivr_Cmulr (v : C) (k : R) : k <> 0 -> Cdivr (Cmulr v k) k = v.
Proof.
  intros H. destruct v as [a b]. unfold Cmulr, Cdivr; simpl. f_equal; field; exact H.
Qed.

Lemma INR_pos_nonzero (k : nat) : k <> 0%nat -> INR k <> 0.
Proof. intros H. apply not_0_INR. exact H. Qed.

(** With numpy's FFT, the field of a forward transform followed by an inverse
    transform, and of an inverse followed by a forward, is the field at the
    start. *)
Lemma fft_pair_numpy (env : Env) (s : Wavefront) (r c : nat) :
  USE_FFTW env = false -> fft_contract env r c ->
  rect (wavefront s) r c -> r <> 0%nat ->
  (exists s1 s2, fft env s = Ok s1 /\ inv_fft env s1 = Ok s2
                 /\ wavefront s2 = wavefront s
                 /\ forget_log s2 = forget_log s)
  /\ (exists s1 s2, inv_fft env s = Ok s1 /\ fft env s1 = Ok s2
                    /\ wavefront s2 = wavefront s
                    /\ forget_log s2 = forget_log s).
Proof.
  intros Hu Hc Hx Hr. pose proof (INR_pos_nonzero r Hr) as Hn.
  assert (Hl : shape0 (wavefront s) = r) by apply Hx.
  assert (F : forall s2 : Wavefront,
             wavefront s2 = wavefront s ->
             forget_log s2 = forget_log (set_wavefront (wavefront s2) s) ->
             forget_log s2 = forget_log s).
  { intros s2 E1 E2. rewrite E2, E1. destruct s; reflexivity. }
  split.
  - unfold fft, inv_fft. rewrite Hu. simpl.
    eexists; eexists. split; [reflexivity|]. split; [reflexivity|].
    assert (E : forall X, X = wavefront s ->
        arr_map (fun v => Cmulr v (INR (shape0 (arr_map (fun v => Cdivr v (INR (shape0 X))) (np_fft2 env X)))))
          (np_ifft2 env (arr_map (fun v => Cdivr v (INR (shape0 X))) (np_fft2 env X)))
        = X).
    { intros X ->. rewrite arr_map_shape0. unfold shape0 in *.
      rewrite (proj1 (fft2_rect env r c Hc _ Hx)), Hl.
      rewrite (ifft2_scale env r c Hc) by (apply (fft2_rect env r c Hc); exact Hx).
      rewrite (ifft2_fft2 env r c Hc) by exact Hx.
      rewrite arr_map_arr_map. apply arr_map_id.
      intros v. apply Cmulr_Cdivr; exact Hn. }
    split.
    + simpl. apply E. reflexivity.
    + apply F; simpl; [apply E; reflexivity|reflexivity].
  - unfold fft, inv_fft. rewrite Hu. simpl.
    eexists; eexists. split; [reflexivity|]. split; [reflexivity|].
    assert (E : forall X, X = wavefront s ->
        arr_map (fun v => Cdivr v (INR (shape0 (arr_map (fun v => Cmulr v (INR (shape0 X))) (np_ifft2 env X)))))
          (np_fft2 env (arr_map (fun v => Cmulr v (INR (shape0 X))) (np_ifft2 env X)))
        = X).
    { intros X ->. rewrite arr_map_shape0. unfold shape0 in *.
      rewrite (proj1 (ifft2_rect env r c Hc _ Hx)), Hl.
      rewrite (fft2_scale env r c Hc) by (apply (ifft2_rect env r c Hc); exact Hx).
      rewrite (fft2_ifft2 env r c Hc) by exact Hx.
      rewrite arr_map_arr_map. apply arr_map_id.
      intros v. apply Cdivr_Cmulr; exact Hn. }
    split.
    + simpl. apply E. reflexivity.
    + apply F; simpl; [apply E; reflexivity|reflexivity].
Qed.

(** When [pyfftw] is selected, each transform raises [NameError]. *)
Lemma fft_pyfftw (env : Env) (s : Wavefront) :
  USE_FFTW env = true ->
  fft env s = Raise NameError /\ inv_fft env s = Raise NameError.
Proof. intros H. unfold fft, inv_fft. rewrite H. split; reflexivity. Qed.

(** C9 fails on the code.  With the optimized backend selected
    ([poppy.conf.use_fftw] set and [pyfftw] installed) [fft()] and
    [inv_fft()] raise [NameError], for every field: the module uses the name
    [pyfftw] and never imports it.  No round trip takes place. *)
Theorem fft_pair_raises_with_pyfftw (s : Wavefront) :
  fft fftw_env s = Raise NameError
  /\ inv_fft fftw_env s = Raise NameError
  /\ (s1 <- fft fftw_env s ;; inv_fft fftw_env s1) = Raise NameError.
Proof. repeat split. Qed.

(** ** The waist kernels, one after the other *)

Lemma imul_wavefront (env : Env) (zm lam : R) (s : Wavefront) :
  wavefront (imul env (mkQuadPhase zm lam) s)
  = arr_mul (wavefront s)
      (phasor_of env zm lam (shape s) (pixelscale s) (planetype s))
  /\ pixelscale (imul env (mkQuadPhase zm lam) s) = pixelscale s
  /\ planetype (imul env (mkQuadPhase zm lam) s) = planetype s
  /\ wavelength (imul env (mkQuadPhase zm lam) s) = wavelength s
  /\ n (imul env (mkQuadPhase zm lam) s) = n s.
Proof.
  unfold imul, getPhasor, phasor_of.
  destruct (coordinates env _ _ _); repeat split.
Qed.

(** What [wts] and [stw] leave, with numpy's FFT and a distance that is not
    zero. *)
Lemma wts_numpy_fields (env : Env) (dz : R) (s : Wavefront) :
  USE_FFTW env = false -> dz <> 0 ->
  exists s', wts env dz s = Ok s'
    /\ wavefront s'
       = (if Rgt_dec dz 0 then fft_field env else inv_fft_field env)
           (arr_mul (wavefront s)
              (phasor_of env dz (wavelength s) (shape s) (pixelscale s) (planetype s)))
    /\ pixelscale s' = fourier_pixelscale s dz
    /\ planetype s' = planetype s /\ wavelength s' = wavelength s /\ n s' = n s.
Proof.
  intros Hu Hdz. unfold wts, fft, inv_fft. rewrite Hu.
  destruct (Req_dec_T dz 0); [contradiction|].
  match goal with |- context [imul env ?q ?t] =>
    destruct (imul_wavefront env dz (wavelength (log_ DEBUG "Waist to Spherical propagation, dz=" s)) t)
      as (I1 & I2 & I3 & I4 & I5) end.
  destruct (Rgt_dec dz 0); simpl; eexists; (split; [reflexivity|]); simpl;
    simpl in I1, I2, I3, I4, I5; unfold shape in *; simpl in *;
    rewrite I1, I2, ?I3, ?I4, ?I5; repeat split.
Qed.

Lemma stw_numpy_fields (env : Env) (dz : R) (s : Wavefront) :
  USE_FFTW env = false -> dz <> 0 ->
  let T := (if Rgt_dec dz 0 then fft_field env else inv_fft_field env)
             (wavefront s) in
  exists s', stw env dz s = Ok s'
    /\ wavefront s'
       = arr_mul T
           (phasor_of env dz (wavelength s) (shape0 T, shape1 T)
              (fourier_pixelscale s dz) (planetype s))
    /\ pixelscale s' = fourier_pixelscale s dz
    /\ planetype s' = planetype s /\ wavelength s' = wavelength s /\ n s' = n s.
Proof.
  intros Hu Hdz. unfold stw, fft, inv_fft. rewrite Hu.
  destruct (Req_dec_T dz 0); [contradiction|].
  destruct (Rgt_dec dz 0); simpl;
    match goal with |- context [imul env (mkQuadPhase dz ?l) ?t] =>
      destruct (imul_wavefront env dz l t) as (I1 & I2 & I3 & I4 & I5) end;
    eexists; (split; [reflexivity|]); simpl;
    simpl in I1, I2, I3, I4, I5; unfold shape in *; simpl in *;
    rewrite I1, I2, ?I3, ?I4, ?I5; repeat split.
Qed.

Lemma fourier_pixelscale_twice (lam dz dz' ps : R) (k : nat) :
  Rabs dz' = Rabs dz -> dz <> 0 -> lam <> 0 -> ps <> 0 -> k <> 0%nat ->
  lam * Rabs dz' / (INR k * (lam * Rabs dz / (INR k * ps))) = ps.
Proof.
  intros -> Hdz Hl Hp Hk.
  pose proof (INR_pos_nonzero k Hk). pose proof (Rabs_no_R0 dz Hdz).
  field. repeat split; assumption.
Qed.

(** The array part of the FFT pair. *)
Lemma fft_field_pair (env : Env) (X : ndarray) (r c : nat) :
  fft_contract env r c -> rect X r c -> r <> 0%nat ->
  inv_fft_field env (fft_field env X) = X
  /\ fft_field env (inv_fft_field env X) = X
  /\ rect (fft_field env X) r c /\ rect (inv_fft_field env X) r c.
Proof.
  intros Hc Hx Hr. pose proof (INR_pos_nonzero r Hr) as Hn.
  assert (Hl : List.length X = r) by apply Hx.
  unfold fft_field, inv_fft_field. rewrite !arr_map_shape0. unfold shape0.
  rewrite (proj1 (fft2_rect env r c Hc _ Hx)),
          (proj1 (ifft2_rect env r c Hc _ Hx)), Hl.
  split; [|split; [|split]].
  - rewrite (ifft2_scale env r c Hc) by (apply (fft2_rect env r c Hc); exact Hx).
    rewrite (ifft2_fft2 env r c Hc) by exact Hx.
    rewrite arr_map_arr_map. apply arr_map_id.
    intros v. apply Cmulr_Cdivr; exact Hn.
  - rewrite (fft2_scale env r c Hc) by (apply (ifft2_rect env r c Hc); exact Hx).
    rewrite (fft2_ifft2 env r c Hc) by exact Hx.
    rewrite arr_map_arr_map. apply arr_map_id.
    intros v. apply Cdivr_Cmulr; exact Hn.
  - apply arr_map_rect, (fft2_rect env r c Hc); exact Hx.
  - apply arr_map_rect, (ifft2_rect env r c Hc); exact Hx.
Qed.

(** ** Products of arrays of one shape *)

Lemma map2_length {A B D : Type} (f : A -> B -> D) (l : list A) (m : list B) :
  List.length l = List.length m -> List.length (map2 f l m) = List.length l.
Proof.
  revert m. induction l as [|a l IH]; intros [|b m] H; simpl in *;
    try discriminate; [reflexivity|]. f_equal. apply IH. lia.
Qed.

Lemma arr_map2_rect {A B D : Type} (f : A -> B -> D)
  (X : list (list A)) (Y : list (list B)) (r c : nat) :
  rect X r c -> rect Y r c -> rect (arr_map2 f X Y) r c.
Proof.
  unfold rect, arr_map2. revert Y r.
  induction X as [|x X IH]; intros [|y Y] r [Hl Hx] [Hl' Hy]; simpl in *;
    subst; try discriminate.
  { split; auto. }
  inversion Hx; subst. inversion Hy; subst.
  assert (I : List.length (map2 (map2 f) X Y) = List.length X
              /\ Forall (fun row => List.length row = List.length x)
                   (map2 (map2 f) X Y)).
  { apply IH; split; auto; lia. }
  destruct I as [I1 I2].
  split; [simpl; f_equal; exact I1|].
  constructor; [|exact I2]. rewrite map2_length; [reflexivity|congruence].
Qed.

Lemma rect_shape {A : Type} (X : list (list A)) (r c : nat) :
  rect X r c -> r <> 0%nat -> (shape0 X, shape1 X) = (r, c).
Proof.
  intros [Hl Hx] Hr. unfold shape0, shape1. rewrite Hl. f_equal.
  destruct X as [|row X]; [simpl in Hl; congruence|].
  inversion Hx; assumption.
Qed.

Lemma row_mul_cancel (f g : R -> C) (x : list C) (gr : list R) :
  (forall v t, Cmult (Cmult v (f t)) (g t) = v) ->
  List.length x = List.length gr ->
  map2 Cmult (map2 Cmult x (map f gr)) (map g gr) = x.
Proof.
  intros Hfg. revert gr.
  induction x as [|v x IHx]; intros [|t gr] H; simpl in *; try discriminate.
  { reflexivity. }
  f_equal; [apply Hfg|]. apply IHx. lia.
Qed.

(** A product by the values of [f], then by the values of [g], over one
    grid, when [g] undoes [f] sample by sample. *)
Lemma arr_mul_cancel (f g : R -> C) (X : ndarray) (G : grid) (r c : nat) :
  (forall v t, Cmult (Cmult v (f t)) (g t) = v) ->
  rect X r c -> rect G r c ->
  arr_mul (arr_mul X (arr_map f G)) (arr_map g G) = X.
Proof.
  intros Hfg. unfold arr_mul, arr_map2, arr_map, rect. revert G r.
  induction X as [|x X IH]; intros [|gr G] r [Hl Hx] [Hl' Hg]; simpl in *;
    subst; try discriminate.
  { reflexivity. }
  inversion Hx; subst. inversion Hg; subst. f_equal.
  - apply row_mul_cancel; [exact Hfg|congruence].
  - apply (IH G (List.length X)); split; auto; lia.
Qed.

Lemma Cexp_opposite_angles (v : C) (t : R) :
  Cmult (Cmult v (Cexp (0, t))) (Cexp (0, - t)) = v.
Proof.
  rewrite !Cexp_imaginary, cos_neg, sin_neg.
  destruct v as [a b]. unfold Cmult; simpl.
  assert (H : cos t * cos t + sin t * sin t = 1).
  { pose proof (sin2_cos2 t) as H. unfold Rsqr in H. lra. }
  f_equal.
  - replace ((a * cos t - b * sin t) * cos t - (a * sin t + b * cos t) * - sin t)
      with (a * (cos t * cos t + sin t * sin t)) by ring.
    rewrite H; ring.
  - replace ((a * cos t - b * sin t) * - sin t + (a * sin t + b * cos t) * cos t)
      with (b * (cos t * cos t + sin t * sin t)) by ring.
    rewrite H; ring.
Qed.

(** The phasors of [QuadPhase(zm)] and [QuadPhase(zm')], for opposite radii,
    on one plane: their product is one at every sample. *)
Lemma phasor_cancel (env : Env) (zm zm' lam ps : R) (pt : PlaneType)
  (X : ndarray) (r c : nat) :
  zm' = - zm -> rect X r c -> coordinates_fit env r c ->
  arr_mul (arr_mul X (phasor_of env zm lam (r, c) ps pt))
    (phasor_of env zm' lam (r, c) ps pt) = X.
Proof.
  intros -> Hx Hc. unfold phasor_of.
  destruct (Hc ps pt) as [Hy Hxx].
  destruct (coordinates env (r, c) ps pt) as [y x]; simpl in Hy, Hxx.
  apply (arr_mul_cancel _ _ X _ r c).
  - intros v t.
    replace (2 * PI / lam * t / (2 * - zm)) with (- (2 * PI / lam * t / (2 * zm))).
    + apply Cexp_opposite_angles.
    + unfold Rdiv. replace (2 * - zm) with (- (2 * zm)) by ring.
      rewrite Rinv_opp. ring.
  - exact Hx.
  - apply arr_map2_rect; assumption.
Qed.

Lemma phasor_rect (env : Env) (zm lam ps : R) (pt : PlaneType) (r c : nat) :
  coordinates_fit env r c -> rect (phasor_of env zm lam (r, c) ps pt) r c.
Proof.
  intros Hc. unfold phasor_of. destruct (Hc ps pt) as [Hy Hx].
  destruct (coordinates env (r, c) ps pt) as [y x]; simpl in Hy, Hx.
  apply arr_map_rect, arr_map2_rect; assumption.
Qed.

Lemma arr_mul_rect (X P : ndarray) (r c : nat) :
  rect X r c -> rect P r c -> rect (arr_mul X P) r c.
Proof. apply arr_map2_rect. Qed.

Section WaistPair.

Variable env : Env.
Variable s : Wavefront.
Variables r c : nat.
Variable dz : R.

Hypothesis numpy_fft : USE_FFTW env = false.
Hypothesis contract : fft_contract env r c.
Hypothesis coords : coordinates_fit env r c.
Hypothesis field_shape : rect (wavefront s) r c.
Hypothesis rows : r <> 0%nat.
Hypothesis dz_nonzero : dz <> 0.
Hypothesis wavelength_nonzero : wavelength s <> 0.
Hypothesis pixelscale_nonzero : pixelscale s <> 0.
Hypothesis n_nonzero : n s <> 0%nat.

Lemma shape_of_field : shape s = (r, c).
Proof. unfold shape. apply rect_shape; assumption. Qed.

(** [wts(dz)] and then [stw(-dz)]: pixel scale and field are back. *)
Lemma wts_then_stw_back :
  exists s1 s2, wts env dz s = Ok s1 /\ stw env (- dz) s1 = Ok s2
    /\ pixelscale s2 = pixelscale s /\ wavefront s2 = wavefront s.
Proof.
  destruct (wts_numpy_fields env dz s numpy_fft dz_nonzero)
    as (s1 & E1 & W1 & P1 & T1 & L1 & N1).
  assert (Hndz : - dz <> 0) by lra.
  destruct (stw_numpy_fields env (- dz) s1 numpy_fft Hndz)
    as (s2 & E2 & W2 & P2 & _).
  exists s1, s2. split; [exact E1|]. split; [exact E2|].
  assert (Hps : fourier_pixelscale s1 (- dz) = pixelscale s).
  { unfold fourier_pixelscale. rewrite L1, N1, P1. unfold fourier_pixelscale.
    apply fourier_pixelscale_twice; auto. apply Rabs_Ropp. }
  split; [rewrite P2; exact Hps|].
  rewrite W2, Hps, T1, L1. rewrite shape_of_field in W1.
  set (Y := arr_mul (wavefront s)
              (phasor_of env dz (wavelength s) (r, c) (pixelscale s) (planetype s))) in *.
  assert (HY : rect Y r c).
  { apply arr_mul_rect; [exact field_shape|apply phasor_rect; exact coords]. }
  destruct (fft_field_pair env Y r c contract HY rows) as (F1 & F2 & _ & _).
  assert (HT : (if Rgt_dec (- dz) 0 then fft_field env else inv_fft_field env)
                 (wavefront s1) = Y).
  { rewrite W1. destruct (Rgt_dec dz 0); destruct (Rgt_dec (- dz) 0);
      try lra; assumption. }
  rewrite HT. rewrite (rect_shape Y r c HY rows).
  apply (phasor_cancel env dz (- dz) _ _ _ _ r c); auto.
Qed.

(** [stw(dz)] and then [wts(-dz)]: pixel scale and field are back. *)
Lemma stw_then_wts_back :
  exists s1 s2, stw env dz s = Ok s1 /\ wts env (- dz) s1 = Ok s2
    /\ pixelscale s2 = pixelscale s /\ wavefront s2 = wavefront s.
Proof.
  destruct (stw_numpy_fields env dz s numpy_fft dz_nonzero)
    as (s1 & E1 & W1 & P1 & T1 & L1 & N1).
  assert (Hndz : - dz <> 0) by lra.
  destruct (wts_numpy_fields env (- dz) s1 numpy_fft Hndz)
    as (s2 & E2 & W2 & P2 & _).
  exists s1, s2. split; [exact E1|]. split; [exact E2|].
  assert (Hps : fourier_pixelscale s1 (- dz) = pixelscale s).
  { unfold fourier_pixelscale. rewrite L1, N1, P1. unfold fourier_pixelscale.
    apply fourier_pixelscale_twice; auto. apply Rabs_Ropp. }
  split; [rewrite P2; exact Hps|].
  destruct (fft_field_pair env (wavefront s) r c contract field_shape rows)
    as (F1 & F2 & R1 & R2).
  set (T := (if Rgt_dec dz 0 then fft_field env else inv_fft_field env)
              (wavefront s)) in *.
  assert (HT : rect T r c) by (unfold T; destruct (Rgt_dec dz 0); assumption).
  rewrite (rect_shape T r c HT rows) in W1.
  assert (Hs1 : shape s1 = (r, c)).
  { unfold shape. rewrite W1. apply rect_shape; [|exact rows].
    apply arr_mul_rect; [exact HT|apply phasor_rect; exact coords]. }
  rewrite W2, Hs1, L1, P1, T1, W1.
  rewrite (phasor_cancel env dz (- dz) _ _ _ _ r c); auto.
  unfold T. destruct (Rgt_dec dz 0); destruct (Rgt_dec (- dz) 0);
    try lra; assumption.
Qed.

(** [stw(dz)] and then [wts(dz)]: the pixel scale is back. *)
Lemma stw_then_wts_pixelscale :
  exists s1 s2, stw env dz s = Ok s1 /\ wts env dz s1 = Ok s2
    /\ pixelscale s2 = pixelscale s.
Proof.
  destruct (stw_numpy_fields env dz s numpy_fft dz_nonzero)
    as (s1 & E1 & W1 & P1 & T1 & L1 & N1).
  destruct (wts_numpy_fields env dz s1 numpy_fft dz_nonzero)
    as (s2 & E2 & W2 & P2 & _).
  exists s1, s2. split; [exact E1|]. split; [exact E2|].
  rewrite P2. unfold fourier_pixelscale. rewrite L1, N1, P1.
  unfold fourier_pixelscale. apply fourier_pixelscale_twice; auto.
Qed.

End WaistPair.

(** ** Two waist kernels of one sign on the two-by-two pupil *)

Lemma Cexp_quarter_turn (t : R) : t = PI / 2 -> Cexp (0, t) = (0, 1).
Proof. intros ->. rewrite Cexp_imaginary, cos_PI2, sin_PI2. reflexivity. Qed.

Lemma phasor_2x2_quarter_turn :
  phasor_of numpy_env 4 1 (2%nat, 2%nat) (1 * Rabs 4 / (INR 2 * 1)) PUPIL
  = [[(0, 1); (0, 1)]; [(0, 1); (0, 1)]].
Proof.
  unfold phasor_of, numpy_env, centred_coordinates, indices, arr_map, arr_map2.
  cbn [coordinates fst snd seq map repeat map2].
  rewrite (Rabs_pos_eq 4) by lra.
  arr_eq; apply Cexp_quarter_turn; simpl; field.
Qed.

(** C4, as stated, fails for the pair of one sign: on the two-by-two pupil,
    [stw(4)] followed by [wts(4)] returns the field with its sign changed. *)
Lemma stw_then_wts_same_sign_changes_field :
  exists s1 s2, stw numpy_env 4 pupil_2x2 = Ok s1 /\ wts numpy_env 4 s1 = Ok s2
    /\ wavefront s2 = [[(-1, 0); (0, 0)]; [(0, 0); (0, 0)]]
    /\ wavefront s2 <> wavefront pupil_2x2.
Proof.
  assert (H4 : 4 <> 0) by lra.
  destruct (stw_numpy_fields numpy_env 4 pupil_2x2 eq_refl H4)
    as (s1 & E1 & W1 & P1 & T1 & L1 & N1).
  destruct (wts_numpy_fields numpy_env 4 s1 eq_refl H4)
    as (s2 & E2 & W2 & _).
  exists s1, s2. split; [exact E1|]. split; [exact E2|].
  assert (HT : (if Rgt_dec 4 0 then fft_field numpy_env else inv_fft_field numpy_env)
                 (wavefront pupil_2x2)
               = [[(1 / 2, 0); (1 / 2, 0)]; [(1 / 2, 0); (1 / 2, 0)]]).
  { destruct (Rgt_dec 4 0); [|lra].
    unfold fft_field. simpl np_fft2. simpl wavefront. rewrite dft2_2x2.
    unfold arr_map, Cdivr, shape0. cbn [map fst snd List.length INR].
    arr_eq; field. }
  rewrite HT in W1. cbn [shape0 shape1 List.length] in W1.
  change (wavelength pupil_2x2) with 1 in W1.
  change (planetype pupil_2x2) with PUPIL in W1.
  unfold fourier_pixelscale in W1, P1.
  change (wavelength pupil_2x2) with 1 in W1, P1.
  change (n pupil_2x2) with 2%nat in W1, P1.
  change (pixelscale pupil_2x2) with 1 in W1, P1.
  rewrite phasor_2x2_quarter_turn in W1.
  assert (W1' : wavefront s1 = [[(0, 1 / 2); (0, 1 / 2)]; [(0, 1 / 2); (0, 1 / 2)]]).
  { rewrite W1. unfold arr_mul, arr_map2, Cmult. cbn [map2 fst snd]. arr_eq; field. }
  assert (W2' : wavefront s2 = [[(-1, 0); (0, 0)]; [(0, 0); (0, 0)]]).
  { rewrite W2. unfold shape. rewrite W1', P1, T1, L1.
    cbn [shape0 shape1 List.length].
    change (wavelength pupil_2x2) with 1. change (planetype pupil_2x2) with PUPIL.
    rewrite phasor_2x2_quarter_turn.
    destruct (Rgt_dec 4 0); [|lra].
    unfold fft_field, arr_mul, arr_map2. cbn [map2]. simpl np_fft2.
    rewrite dft2_2x2.
    unfold arr_map, Cdivr, Cmult, shape0. cbn [map fst snd List.length INR].
    arr_eq; field. }
  split; [exact W2'|].
  rewrite W2'. simpl. intros H. injection H as H. lra.
Qed.

Lemma numpy_env_coordinates_fit : coordinates_fit numpy_env 2 2.
Proof.
  intros ps pt. unfold numpy_env, centred_coordinates, indices, arr_map.
  cbn [coordinates fst snd seq map repeat].
  split; apply rect_2x2_intro.
Qed.

(** C4, amended.  With numpy's FFT, on a field of [r] rows of [c] samples,
    for a distance, a wavelength, a pixel scale and a size [n] that are not
    zero: [wts(dz)] followed by [stw(-dz)], and [stw(dz)] followed by
    [wts(-dz)], return the pixel scale and the field to their values before
    the pair; [stw(dz)] followed by [wts(dz)] returns the pixel scale. *)
Theorem waist_round_trip (env : Env) (s : Wavefront) (r c : nat) (dz : R) :
  USE_FFTW env = false -> fft_contract env r c -> coordinates_fit env r c ->
  rect (wavefront s) r c -> r <> 0%nat ->
  dz <> 0 -> wavelength s <> 0 -> pixelscale s <> 0 -> n s <> 0%nat ->
  (exists s1 s2, wts env dz s = Ok s1 /\ stw env (- dz) s1 = Ok s2
     /\ pixelscale s2 = pixelscale s /\ wavefront s2 = wavefront s)
  /\ (exists s1 s2, stw env dz s = Ok s1 /\ wts env (- dz) s1 = Ok s2
        /\ pixelscale s2 = pixelscale s /\ wavefront s2 = wavefront s)
  /\ (exists s1 s2, stw env dz s = Ok s1 /\ wts env dz s1 = Ok s2
        /\ pixelscale s2 = pixelscale s).
Proof.
  intros Hu Hc Hf Hx Hr Hdz Hl Hp Hn. split; [|split].
  - apply (wts_then_stw_back env s r c dz); assumption.
  - apply (stw_then_wts_back env s r c dz); assumption.
  - apply (stw_then_wts_pixelscale env s dz); assumption.
Qed.

Lemma waist_round_trip_witness :
  (exists s1 s2, wts numpy_env 4 pupil_2x2 = Ok s1 /\ stw numpy_env (- 4) s1 = Ok s2
     /\ pixelscale s2 = pixelscale pupil_2x2 /\ wavefront s2 = wavefront pupil_2x2)
  /\ (exists s1 s2, stw numpy_env 4 pupil_2x2 = Ok s1 /\ wts numpy_env (- 4) s1 = Ok s2
        /\ pixelscale s2 = pixelscale pupil_2x2 /\ wavefront s2 = wavefront pupil_2x2)
  /\ (exists s1 s2, stw numpy_env 4 pupil_2x2 = Ok s1 /\ wts numpy_env 4 s1 = Ok s2
        /\ pixelscale s2 = pixelscale pupil_2x2).
Proof.
  apply (waist_round_trip numpy_env pupil_2x2 2 2 4).
  - reflexivity.
  - exact numpy_env_contract.
  - exact numpy_env_coordinates_fit.
  - apply rect_2x2_intro.
  - discriminate.
  - lra.
  - simpl; lra.
  - simpl; lra.
  - simpl; discriminate.
Defined.

(** At the exact boundary [|z_w0 - z| = z_R] the target is not in range. *)
Lemma planar_range_boundary (s : Wavefront) (zz : R) :
  Rabs (z_w0 s - zz) = z_R s -> planar_range s zz = false.
Proof.
  intros H. unfold planar_range. destruct (Rlt_dec _ _); [lra|reflexivity].
Qed.

(** ** The Gaussian-beam parameters *)

(** X1.  [R_c(z)] is infinite exactly at the waist; elsewhere it is finite,
    it has the sign of the offset [z - z_w0], and its magnitude is never
    below twice the Rayleigh distance. *)
Theorem R_c_bounds (s : Wavefront) (zz : R) :
  match R_c s zz with
  | PInf => zz = z_w0 s
  | Fin r => zz <> z_w0 s /\ 0 < r * (zz - z_w0 s)
             /\ 2 * Rabs (z_R s) <= Rabs r
  end.
Proof.
  unfold R_c. destruct (Req_dec_T _ _) as [E|Hn]; [lra|].
  set (dz := zz - z_w0 s) in *. set (q := z_R s).
  assert (Hd : 0 < Rabs dz) by (apply Rabs_pos_lt; exact Hn).
  assert (Hr : dz * (1 + (q / dz) ^ 2) * dz = dz ^ 2 + q ^ 2) by (field; exact Hn).
  assert (Hd2 : 0 < dz ^ 2) by (pose proof (pow2_ge_0 dz); nra).
  assert (Hq2 : 0 <= q ^ 2) by apply pow2_ge_0.
  split; [unfold dz in Hn; lra|]. split; [lra|].
  apply (Rmult_le_reg_r (Rabs dz)); [exact Hd|].
  rewrite <- Rabs_mult, Hr, (Rabs_pos_eq (dz ^ 2 + q ^ 2)) by lra.
  assert (Ha : Rabs dz ^ 2 = dz ^ 2) by (rewrite RPow_abs; apply Rabs_pos_eq; lra).
  assert (Hb : Rabs q ^ 2 = q ^ 2) by (rewrite RPow_abs; apply Rabs_pos_eq; lra).
  pose proof (pow2_ge_0 (Rabs dz - Rabs q)). nra.
Qed.

Lemma spot_radius_sq (s : Wavefront) (zz : R) :
  spot_radius s zz ^ 2 = w_0 s ^ 2 * (1 + ((zz - z_w0 s) / z_R s) ^ 2).
Proof.
  unfold spot_radius. rewrite Rpow_mult_distr, pow2_sqrt; [reflexivity|].
  pose proof (pow2_ge_0 ((zz - z_w0 s) / z_R s)). lra.
Qed.



(** X3.  The divergence and the Rayleigh distance of one beam are tied to
    its waist radius: [divergence * z_R = 2 * w_0]. *)
Theorem divergence_times_z_R (s : Wavefront) :
  w_0 s <> 0 -> wavelength s <> 0 -> divergence s * z_R s = 2 * w_0 s.
Proof.
  intros Hw Hl. unfold divergence, z_R. pose proof PI_RGT_0.
  field. repeat split; try assumption; lra.
Qed.

Lemma divergence_times_z_R_witness :
  w_0 pupil_2x2 <> 0 /\ wavelength pupil_2x2 <> 0
  /\ divergence pupil_2x2 * z_R pupil_2x2 = 2 * w_0 pupil_2x2.
Proof.
  assert (H1 : w_0 pupil_2x2 <> 0) by (simpl; lra).
  assert (H2 : wavelength pupil_2x2 <> 0) by (simpl; lra).
  split; [exact H1|]. split; [exact H2|].
  exact (divergence_times_z_R pupil_2x2 H1 H2).
Defined.

(** ** The shift of the field *)

Lemma fftshift1_length {A : Type} (l : list A) :
  List.length (fftshift1 l) = List.length l.
Proof.
  unfold fftshift1. rewrite length_app, length_skipn, length_firstn.
  assert (List.length l / 2 <= List.length l)%nat by (apply Nat.Div0.div_le_upper_bound; lia).
  lia.
Qed.

Lemma fftshift1_map {A B : Type} (f : A -> B) (l : list A) :
  map f (fftshift1 l) = fftshift1 (map f l).
Proof.
  unfold fftshift1. rewrite length_map, map_app, skipn_map, firstn_map.
  reflexivity.
Qed.

Lemma even_half (k : nat) :
  Nat.even k = true -> (k - k / 2 = k / 2)%nat /\ (k / 2 + k / 2 = k)%nat.
Proof.
  intros H. apply Nat.even_spec in H. destruct H as [m ->].
  rewrite Nat.mul_comm, Nat.div_mul by lia. lia.
Qed.

(** Two shifts of a list of even length give the list back. *)
Lemma fftshift1_twice_even {A : Type} (l : list A) :
  Nat.even (List.length l) = true -> fftshift1 (fftshift1 l) = l.
Proof.
  intros H. destruct (even_half _ H) as [H1 H2].
  unfold fftshift1 at 1. rewrite fftshift1_length, H1.
  unfold fftshift1. rewrite H1.
  set (k := (List.length l / 2)%nat) in *.
  assert (Hs : List.length (skipn k l) = k) by (rewrite length_skipn; lia).
  rewrite skipn_app, firstn_app, Hs, Nat.sub_diag.
  rewrite (@skipn_all2 _ k (skipn k l)) by lia.
  rewrite (@firstn_all2 _ k (skipn k l)) by lia.
  cbn [skipn firstn app]. rewrite app_nil_r. apply firstn_skipn.
Qed.

(** Two shifts of a list of odd length roll it by one place. *)
Lemma fftshift1_twice_odd {A : Type} (a : A) (l : list A) :
  Nat.even (List.length l) = true ->
  fftshift1 (fftshift1 (a :: l)) = l ++ [a].
Proof.
  intros H. destruct (even_half _ H) as [H1 H2].
  set (k := (List.length l / 2)%nat) in *.
  assert (Hk : (List.length (a :: l) / 2 = k)%nat).
  { cbn [List.length]. replace (S (List.length l)) with (1 + k * 2)%nat by lia.
    rewrite Nat.div_add by lia. reflexivity. }
  assert (Hn : (List.length (a :: l) - k = S k)%nat)
    by (cbn [List.length]; lia).
  unfold fftshift1 at 1. rewrite fftshift1_length, Hk, Hn.
  unfold fftshift1. rewrite Hk, Hn.
  rewrite skipn_cons, firstn_cons.
  assert (Hs : List.length (skipn k l) = k) by (rewrite length_skipn; lia).
  rewrite skipn_app, firstn_app, Hs.
  replace (S k - k)%nat with 1%nat by lia.
  rewrite (@skipn_all2 _ (S k) (skipn k l)) by lia.
  rewrite (@firstn_all2 _ (S k) (skipn k l)) by lia.
  cbn [skipn firstn app].
  rewrite <- (firstn_skipn k l) at 3.
  rewrite <- app_assoc. reflexivity.
Qed.

Lemma fftshift_twice_even {A : Type} (X : list (list A)) (r c : nat) :
  rect X r c -> Nat.even r = true -> Nat.even c = true ->
  fftshift (fftshift X) = X.
Proof.
  intros [Hl Hx] Hr Hc. unfold fftshift.
  rewrite fftshift1_map, fftshift1_twice_even
    by (rewrite !length_map, Hl; exact Hr).
  rewrite map_map. rewrite <- (map_id X) at 2.
  apply map_ext_in. intros row Hin.
  apply fftshift1_twice_even.
  rewrite Forall_forall in Hx. rewrite (Hx row Hin). exact Hc.
Qed.

(** X4.  [np.fft.fftshift] keeps the length of an axis.  Applied twice, it
    gives back an array whose two dimensions are even; along an axis of odd
    length, two shifts roll the samples by one place instead. *)
Theorem fftshift_twice {A : Type} (X : list (list A)) (r c : nat)
  (a : A) (l : list A) :
  rect X r c -> Nat.even r = true -> Nat.even c = true ->
  Nat.even (List.length l) = true ->
  fftshift (fftshift X) = X
  /\ List.length (fftshift X) = List.length X
  /\ fftshift1 (fftshift1 (a :: l)) = l ++ [a].
Proof.
  intros Hx Hr Hc Hl. split; [|split].
  - apply (fftshift_twice_even X r c); assumption.
  - unfold fftshift. rewrite fftshift1_length, length_map. reflexivity.
  - apply fftshift1_twice_odd; exact Hl.
Qed.

Lemma fftshift_twice_witness :
  fftshift (fftshift (wavefront pupil_2x2)) = wavefront pupil_2x2
  /\ List.length (fftshift (wavefront pupil_2x2)) = List.length (wavefront pupil_2x2)
  /\ fftshift1 (fftshift1 [(1, 0); (2, 0); (3, 0)]) = [(2, 0); (3, 0)] ++ [(1, 0)].
Proof.
  apply (fftshift_twice (wavefront pupil_2x2) 2 2 (1, 0) [(2, 0); (3, 0)]).
  - apply rect_2x2_intro.
  - reflexivity.
  - reflexivity.
  - reflexivity.
Defined.

(** A planar wavefront asked to advance, within the Rayleigh range, by less
    than one angstrom. *)
Lemma propagate_fresnel_skipped (env : Env) (dz : R) (s : Wavefront) :
  spherical s = false -> spec_in_range s (z s + dz) ->
  Rabs dz < 1 * Angstrom ->
  exists s', propagate_fresnel env dz s = Ok s'
    /\ wavefront s' = fftshift (fftshift (wavefront s))
    /\ z s' = z s /\ pixelscale s' = pixelscale s
    /\ history s' = history s /\ planetype s' = INTERMED
    /\ beam s' = beam s.
Proof.
  intros Hs Hr Hd. unfold propagate_fresnel.
  cbn [spherical set_wavefront log_]. rewrite Hs. cbn [negb].
  unfold planar_range. cbn [z_w0 z_R w_0 wavelength].
  destruct (Rlt_dec _ _) as [_|Hn]; [|contradiction].
  unfold ptp. destruct (Rlt_dec _ _) as [_|Hn]; [|contradiction].
  cbn [bind]. eexists. split; [reflexivity|]. repeat split.
Qed.

(** X5.  On a planar wavefront, [propagate_fresnel(delta_z)] with a target
    in range and [|delta_z|] below one angstrom returns, under either FFT
    backend, without moving: position, pixel scale, history and beam
    parameters are as before and the plane is marked intermediate.  The field
    has been shifted twice: it is as before when both dimensions are even. *)
Theorem propagate_fresnel_below_one_angstrom
  (env : Env) (dz : R) (s : Wavefront) (r c : nat) :
  spherical s = false -> spec_in_range s (z s + dz) ->
  Rabs dz < 1 * Angstrom ->
  rect (wavefront s) r c -> Nat.even r = true -> Nat.even c = true ->
  exists s', propagate_fresnel env dz s = Ok s'
    /\ wavefront s' = wavefront s
    /\ z s' = z s /\ pixelscale s' = pixelscale s
    /\ history s' = history s /\ planetype s' = INTERMED
    /\ beam s' = beam s.
Proof.
  intros Hs Hr Hd Hx He Hc.
  destruct (propagate_fresnel_skipped env dz s Hs Hr Hd)
    as (s' & E & W & rest).
  exists s'. split; [exact E|]. split; [|exact rest].
  rewrite W. apply (fftshift_twice_even _ r c); assumption.
Qed.

Lemma propagate_fresnel_below_one_angstrom_witness :
  exists s', propagate_fresnel fftw_env (Angstrom / 2) pupil_2x2 = Ok s'
    /\ wavefront s' = wavefront pupil_2x2
    /\ z s' = z pupil_2x2 /\ pixelscale s' = pixelscale pupil_2x2
    /\ history s' = history pupil_2x2 /\ planetype s' = INTERMED
    /\ beam s' = beam pupil_2x2.
Proof.
  pose proof Angstrom_pos as Ha. pose proof Angstrom_lt_1 as Hb.
  pose proof PI_gt_3 as Hpi.
  apply (propagate_fresnel_below_one_angstrom fftw_env (Angstrom / 2) pupil_2x2 2 2).
  - reflexivity.
  - unfold spec_in_range, z_R; simpl. rewrite Rabs_left by lra. lra.
  - rewrite Rabs_pos_eq by lra. lra.
  - apply rect_2x2_intro.
  - reflexivity.
  - reflexivity.
Defined.

(** ** Plane-to-plane steps, one after the other *)

(** What [ptp] leaves, with numpy's FFT and a step it does not skip. *)
Lemma ptp_numpy_fields (env : Env) (dz : R) (s : Wavefront) :
  USE_FFTW env = false -> 1 * Angstrom <= Rabs dz ->
  exists s', ptp env dz s = Ok s'
    /\ wavefront s'
       = inv_fft_field env (arr_mul (fft_field env (wavefront s)) (transfer s dz))
    /\ z s' = z s + dz /\ pixelscale s' = pixelscale s
    /\ oversample s' = oversample s /\ wavelength s' = wavelength s
    /\ planetype s' = planetype s
    /\ history s' = history s ++ [("Propagated Plane-to-Plane, dz = "%string, dz)].
Proof.
  intros Hu Hd. unfold ptp, fft, inv_fft. rewrite Hu.
  destruct (Rlt_dec _ _) as [Hlt|_]; [lra|].
  unfold transfer, rho. destruct (fft_coords s) as [x y].
  cbn [bind]. eexists. split; [reflexivity|]. repeat split.
Qed.

Lemma arr_mul_mul (f g h : R -> C) (X : ndarray) (G : grid) :
  (forall v t, Cmult (Cmult v (f t)) (g t) = Cmult v (h t)) ->
  arr_mul (arr_mul X (arr_map f G)) (arr_map g G) = arr_mul X (arr_map h G).
Proof.
  intros Hfg. unfold arr_mul, arr_map2, arr_map. revert G.
  induction X as [|x X IH]; intros [|gr G]; simpl; try reflexivity.
  f_equal; [|apply IH].
  clear IH. revert gr. induction x as [|v x IHx]; intros [|t gr]; simpl;
    try reflexivity.
  f_equal; [apply Hfg|apply IHx].
Qed.

Lemma Cexp_add_angles (v : C) (t u : R) :
  Cmult (Cmult v (Cexp (0, t))) (Cexp (0, u)) = Cmult v (Cexp (0, t + u)).
Proof.
  rewrite !Cexp_imaginary, cos_plus, sin_plus.
  destruct v as [a b]. unfold Cmult; simpl. f_equal; ring.
Qed.

(** The transfer functions of two distances multiply to that of their
    sum. *)
Lemma transfer_add (s : Wavefront) (a b : R) (X : ndarray) :
  arr_mul (arr_mul X (transfer s a)) (transfer s b) = arr_mul X (transfer s (a + b)).
Proof.
  unfold transfer. rewrite !arr_map_arr_map. apply arr_mul_mul.
  intros v t. cbv beta. rewrite Cexp_add_angles. do 3 f_equal. ring.
Qed.

Lemma Forall_fftshift1 {A : Type} (P : A -> Prop) (l : list A) :
  Forall P l -> Forall P (fftshift1 l).
Proof.
  intros H. unfold fftshift1.
  rewrite <- (firstn_skipn (List.length l - List.length l / 2) l) in H.
  apply Forall_app in H as [H1 H2].
  apply Forall_app. split; assumption.
Qed.

Lemma fftshift_rect {A : Type} (X : list (list A)) (r c : nat) :
  rect X r c -> rect (fftshift X) r c.
Proof.
  intros [Hl Hx]. unfold fftshift. split.
  - rewrite fftshift1_length, length_map. exact Hl.
  - apply Forall_fftshift1, Forall_map.
    eapply Forall_impl; [|exact Hx]. simpl. intros row H.
    rewrite fftshift1_length. exact H.
Qed.

Lemma indices_rect (r c : nat) :
  rect (fst (indices r c)) r c /\ rect (snd (indices r c)) r c.
Proof.
  unfold indices, rect; simpl. split; split.
  - rewrite length_map, length_seq. reflexivity.
  - apply Forall_map, Forall_forall. intros i _. apply repeat_length.
  - apply repeat_length.
  - apply Forall_forall. intros row Hin. apply repeat_spec in Hin. subst.
    rewrite length_map, length_seq. reflexivity.
Qed.

Lemma rho_rect (s : Wavefront) (r c : nat) :
  shape s = (r, c) -> rect (rho s) r c.
Proof.
  intros Hs. unfold rho, fft_coords. rewrite Hs. cbn [fst snd].
  destruct (indices_rect r c) as [Hy Hx].
  destruct (indices r c) as [y x]. cbn [fst snd] in Hy, Hx.
  apply fftshift_rect, arr_map2_rect; repeat apply arr_map_rect; assumption.
Qed.

Lemma transfer_rect (s : Wavefront) (dz : R) (r c : nat) :
  shape s = (r, c) -> rect (transfer s dz) r c.
Proof.
  intros Hs. unfold transfer. repeat apply arr_map_rect.
  apply rho_rect; exact Hs.
Qed.

(** The transfer function depends on the wavefront through its shape, pixel
    scale, oversampling and wavelength only. *)
Lemma transfer_same (s s' : Wavefront) (dz : R) :
  shape s' = shape s -> pixelscale s' = pixelscale s ->
  oversample s' = oversample s -> wavelength s' = wavelength s ->
  transfer s' dz = transfer s dz.
Proof.
  intros H1 H2 H3 H4. unfold transfer, rho, fft_coords.
  rewrite H1, H2, H3, H4. reflexivity.
Qed.

(** X6.  With numpy's FFT, two plane-to-plane steps [ptp(a)] and [ptp(b)]
    that are not skipped leave the field, the position and the pixel scale
    that the single step [ptp(a + b)] leaves. *)
Theorem ptp_additive (env : Env) (s : Wavefront) (r c : nat) (a b : R) :
  USE_FFTW env = false -> fft_contract env r c ->
  rect (wavefront s) r c -> r <> 0%nat ->
  1 * Angstrom <= Rabs a -> 1 * Angstrom <= Rabs b ->
  1 * Angstrom <= Rabs (a + b) ->
  exists s1 s2 s3,
    ptp env a s = Ok s1 /\ ptp env b s1 = Ok s2 /\ ptp env (a + b) s = Ok s3
    /\ wavefront s2 = wavefront s3 /\ z s2 = z s3
    /\ pixelscale s2 = pixelscale s3 /\ pixelscale s3 = pixelscale s.
Proof.
  intros Hu Hc Hx Hr Ha Hb Hab.
  destruct (ptp_numpy_fields env a s Hu Ha)
    as (s1 & E1 & W1 & Z1 & P1 & O1 & L1 & _).
  destruct (ptp_numpy_fields env b s1 Hu Hb)
    as (s2 & E2 & W2 & Z2 & P2 & _).
  destruct (ptp_numpy_fields env (a + b) s Hu Hab)
    as (s3 & E3 & W3 & Z3 & P3 & _).
  exists s1, s2, s3. repeat (split; [assumption|]).
  assert (Hs : shape s = (r, c)) by (apply rect_shape; assumption).
  destruct (fft_field_pair env (wavefront s) r c Hc Hx Hr) as (_ & _ & RF & _).
  set (Y := arr_mul (fft_field env (wavefront s)) (transfer s a)) in *.
  assert (HY : rect Y r c).
  { apply arr_mul_rect; [exact RF|apply transfer_rect; exact Hs]. }
  destruct (fft_field_pair env Y r c Hc HY Hr) as (_ & FY & _ & RY).
  assert (Hs1 : shape s1 = shape s).
  { unfold shape at 1. rewrite W1, Hs. apply rect_shape; assumption. }
  split.
  - rewrite W2, W3, W1, FY.
    rewrite (transfer_same s s1 b Hs1 P1 O1 L1).
    unfold Y. rewrite transfer_add. reflexivity.
  - split; [rewrite Z2, Z1, Z3; ring|].
    split; [rewrite P2, P1, P3; reflexivity|exact P3].
Qed.

Lemma ptp_additive_witness :
  exists s1 s2 s3,
    ptp numpy_env 1 pupil_2x2 = Ok s1 /\ ptp numpy_env 2 s1 = Ok s2
    /\ ptp numpy_env (1 + 2) pupil_2x2 = Ok s3
    /\ wavefront s2 = wavefront s3 /\ z s2 = z s3
    /\ pixelscale s2 = pixelscale s3 /\ pixelscale s3 = pixelscale pupil_2x2.
Proof.
  pose proof Angstrom_pos as Ha. pose proof Angstrom_lt_1 as Hb.
  apply (ptp_additive numpy_env pupil_2x2 2 2 1 2).
  - reflexivity.
  - exact numpy_env_contract.
  - apply rect_2x2_intro.
  - discriminate.
  - rewrite Rabs_pos_eq by lra. lra.
  - rewrite Rabs_pos_eq by lra. lra.
  - rewrite Rabs_pos_eq by lra. lra.
Defined.

(** ** The pixel scale *)

Lemma imul_sampling (env : Env) (q : QuadPhase) (s : Wavefront) :
  pixelscale (imul env q s) = pixelscale s
  /\ wavelength (imul env q s) = wavelength s /\ n (imul env q s) = n s.
Proof.
  unfold imul, getPhasor. destruct (coordinates env _ _ _); repeat split.
Qed.

Lemma ptp_sampling (env : Env) (dz : R) (s s' : Wavefront) :
  ptp env dz s = Ok s' ->
  pixelscale s' = pixelscale s /\ wavelength s' = wavelength s /\ n s' = n s.
Proof.
  unfold ptp. destruct (Rlt_dec _ _).
  - intros H; injection H as <-. repeat split.
  - destruct (fft env s) as [s1|] eqn:E1; simpl; [|discriminate].
    apply fft_inv in E1 as [_ ->].
    match goal with |- bind ?r _ = _ -> _ => destruct r as [s2|] eqn:E2 end;
      simpl; [|discriminate].
    apply inv_fft_inv in E2 as [_ ->].
    intros H; injection H as <-. repeat split.
Qed.

Lemma wts_sampling (env : Env) (dz : R) (s s' : Wavefront) :
  wts env dz s = Ok s' ->
  pixelscale s' = (if Req_dec_T dz 0 then pixelscale s else fourier_pixelscale s dz)
  /\ wavelength s' = wavelength s /\ n s' = n s.
Proof.
  unfold wts. destruct (Req_dec_T dz 0) as [->|Hdz].
  - intros H; injection H as <-. repeat split.
  - match goal with |- bind ?r _ = _ -> _ => destruct r as [s1|] eqn:E1 end;
      simpl; [|discriminate].
    intros H; injection H as <-.
    match type of E1 with context [imul env ?q ?t] =>
      destruct (imul_sampling env q t) as (I1 & I2 & I3) end.
    destruct (Rgt_dec dz 0);
      [apply fft_inv in E1 as [_ ->] | apply inv_fft_inv in E1 as [_ ->]];
      unfold fourier_pixelscale; simpl; simpl in I1, I2, I3;
      rewrite I1, I2, I3; repeat split.
Qed.

Lemma stw_sampling (env : Env) (dz : R) (s s' : Wavefront) :
  stw env dz s = Ok s' ->
  pixelscale s' = (if Req_dec_T dz 0 then pixelscale s else fourier_pixelscale s dz)
  /\ wavelength s' = wavelength s /\ n s' = n s.
Proof.
  unfold stw. destruct (Req_dec_T dz 0) as [->|Hdz].
  - intros H; injection H as <-. repeat split.
  - match goal with |- bind ?r _ = _ -> _ => destruct r as [s1|] eqn:E1 end;
      simpl; [|discriminate].
    intros H; injection H as <-.
    destruct (Rgt_dec dz 0);
      [apply fft_inv in E1 as [_ ->] | apply inv_fft_inv in E1 as [_ ->]];
      match goal with |- context [imul env ?q ?t] =>
        destruct (imul_sampling env q t) as (I1 & I2 & I3) end;
      unfold fourier_pixelscale; simpl; simpl in I1, I2, I3;
      rewrite I1, I2, I3; repeat split.
Qed.

Lemma fourier_pixelscale_pos (s : Wavefront) (dz : R) :
  sampled s -> dz <> 0 -> 0 < fourier_pixelscale s dz.
Proof.
  intros (Hl & Hp & Hn) Hdz. unfold fourier_pixelscale.
  assert (0 < INR (n s)) by (apply lt_0_INR; lia).
  assert (0 < Rabs dz) by (apply Rabs_pos_lt; exact Hdz).
  apply Rdiv_lt_0_compat; apply Rmult_lt_0_compat; assumption.
Qed.

Lemma run_kernel_sampled (env : Env) (k : kernel) (s s' : Wavefront) :
  run_kernel env k s = Ok s' -> sampled s -> sampled s'.
Proof.
  intros E Hs. pose proof Hs as (Hl & Hp & Hn). unfold sampled.
  destruct k as [dz|dz|dz]; simpl in E.
  - apply ptp_sampling in E as (-> & -> & ->). exact Hs.
  - apply wts_sampling in E as (P & -> & ->). rewrite P.
    destruct (Req_dec_T dz 0); [exact Hs|].
    split; [exact Hl|]. split; [apply fourier_pixelscale_pos; assumption|exact Hn].
  - apply stw_sampling in E as (P & -> & ->). rewrite P.
    destruct (Req_dec_T dz 0); [exact Hs|].
    split; [exact Hl|]. split; [apply fourier_pixelscale_pos; assumption|exact Hn].
Qed.

Lemma run_kernels_sampled (env : Env) (ks : list kernel) (s s' : Wavefront) :
  run_kernels env ks s = Ok s' -> sampled s -> sampled s'.
Proof.
  revert s. induction ks as [|k ks IH]; intros s; simpl.
  - intros H; injection H as <-; auto.
  - destruct (run_kernel env k s) as [s1|] eqn:E; simpl; [|discriminate].
    intros H Hs. apply (IH s1 H). apply (run_kernel_sampled env k s s1 E Hs).
Qed.

(** The state that a returning dispatch leaves, up to the log, from the run
    of the table. *)
Lemma propagate_fresnel_run (env : Env) (delta_z : R) (s s' : Wavefront) :
  propagate_fresnel env delta_z s = Ok s' ->
  exists s1,
    run_kernels env (spec_regime_table s delta_z)
      (set_wavefront (fftshift (wavefront s)) s) = Ok s1
    /\ forget_log s'
       = forget_log (set_planetype INTERMED
                       (set_wavefront (fftshift (wavefront s1)) s1)).
Proof.
  intros H.
  destruct (dispatch_refines_table env delta_z s) as [Heq _].
  rewrite H in Heq; simpl in Heq. symmetry in Heq.
  apply res_forget_log_Ok in Heq as (s2 & E2 & F2).
  unfold spec_propagate_fresnel in E2.
  destruct (run_kernels env _ _) as [s1|] eqn:E1; simpl in E2; [|discriminate].
  injection E2 as <-. exists s1. split; [reflexivity|]. symmetry; exact F2.
Qed.

(** X7.  A returning [propagate_fresnel] keeps the sampling sound: from a
    positive wavelength, a positive pixel scale and a nonzero [n] it leaves
    the wavelength and [n] as they were and a positive pixel scale; on a
    planar wavefront with the target in range the pixel scale is as before. *)
Theorem propagate_fresnel_keeps_sampling
  (env : Env) (delta_z : R) (s s' : Wavefront) :
  propagate_fresnel env delta_z s = Ok s' -> sampled s ->
  sampled s' /\ wavelength s' = wavelength s /\ n s' = n s
  /\ (spherical s = false -> spec_in_range s (z s + delta_z) ->
      pixelscale s' = pixelscale s).
Proof.
  intros E Hs. apply propagate_fresnel_run in E as (s1 & E1 & F).
  assert (Hp : pixelscale s' = pixelscale s1
               /\ wavelength s' = wavelength s1 /\ n s' = n s1).
  { repeat split;
      [apply (f_equal pixelscale) in F|apply (f_equal wavelength) in F
      |apply (f_equal n) in F]; exact F. }
  destruct Hp as (P1 & L1 & N1).
  pose proof (run_kernels_sampled env _ _ _ E1 Hs) as Hs1.
  split; [unfold sampled; rewrite P1, L1, N1; exact Hs1|].
  revert E1. unfold spec_regime_table.
  destruct (spherical s); destruct (spec_in_range_dec _ _); simpl;
    repeat match goal with
           | |- bind ?r _ = _ -> _ =>
               let E := fresh "E" in destruct r eqn:E; simpl; [|discriminate]
           end;
    intros H; injection H as ->;
    repeat match goal with
           | E : ptp _ _ _ = Ok _ |- _ => apply ptp_sampling in E as (? & ? & ?)
           | E : wts _ _ _ = Ok _ |- _ => apply wts_sampling in E as (? & ? & ?)
           | E : stw _ _ _ = Ok _ |- _ => apply stw_sampling in E as (? & ? & ?)
           end;
    simpl in *; (split; [congruence|]); (split; [congruence|]);
    intros; try discriminate; try contradiction; congruence.
Qed.

Lemma propagate_fresnel_keeps_sampling_witness :
  exists s', propagate_fresnel numpy_env 5 pupil_2x2 = Ok s'
    /\ sampled pupil_2x2 /\ sampled s'.
Proof.
  destruct (propagate_fresnel_numpy numpy_env 5 pupil_2x2 eq_refl) as [s' E].
  assert (H : sampled pupil_2x2).
  { unfold sampled; simpl. repeat split; try lra. discriminate. }
  exists s'. split; [exact E|]. split; [exact H|].
  exact (proj1 (propagate_fresnel_keeps_sampling numpy_env 5 pupil_2x2 s' E H)).
Defined.

(** ** What the lens interaction leaves alone *)

(** The update of the beam parameters, when it does not delegate, writes the
    waist, the spherical flag and the log only. *)
Lemma beam_update_frame (env : Env) (optic : GaussianLens) (zl : R)
  (ign : bool) (s : Wavefront) (f : flow) :
  beam_update env optic zl ign s = Ok f -> delegates s optic = false ->
  f = (if ign then Return (flow_state f)
       else Continue (flow_state f) (R_input_beam_of s))
  /\ optic_frame (flow_state f) = optic_frame s
  /\ planetype (flow_state f) = planetype s
  /\ waists_z (flow_state f) = waists_z s
  /\ waists_w0 (flow_state f) = waists_w0 s.
Proof.
  unfold beam_update, R_input_beam_of, delegates, optic_frame.
  destruct (Req_dec_T _ _) as [Ho|]; [|discriminate].
  destruct s as [X ps pt hi wl ov nn w0 zz zw ww wz sp ff rf lg]; simpl.
  intros H Hd. revert H.
  destruct (Rgt_dec _ _); simpl;
    destruct (is_pupil_or_image pt) eqn:Ept; simpl;
    destruct (xeqb _ _); simpl;
    rewrite ?Ept; simpl; rewrite Hd; simpl;
    destruct ign; intros H; injection H as <-; simpl; repeat split.
Qed.

Lemma imul_frame (env : Env) (zm lam : R) (s : Wavefront) :
  wavefront (imul env (mkQuadPhase zm lam) s)
  = arr_mul (wavefront s)
      (phasor_of env zm lam (shape s) (pixelscale s) (planetype s))
  /\ pixelscale (imul env (mkQuadPhase zm lam) s) = pixelscale s
  /\ history (imul env (mkQuadPhase zm lam) s) = history s
  /\ wavelength (imul env (mkQuadPhase zm lam) s) = wavelength s
  /\ oversample (imul env (mkQuadPhase zm lam) s) = oversample s
  /\ n (imul env (mkQuadPhase zm lam) s) = n s
  /\ z (imul env (mkQuadPhase zm lam) s) = z s
  /\ force_fresnel (imul env (mkQuadPhase zm lam) s) = force_fresnel s
  /\ rayl_factor (imul env (mkQuadPhase zm lam) s) = rayl_factor s
  /\ spherical (imul env (mkQuadPhase zm lam) s) = spherical s.
Proof.
  unfold imul, getPhasor, phasor_of.
  destruct (coordinates env _ _ _); repeat split.
Qed.

Lemma effective_focal_length_frame (optic : GaussianLens) (zl : R)
  (Rin : xreal) (s : Wavefront) :
  let s' := fst (fst (effective_focal_length optic zl Rin s)) in
  optic_frame s' = optic_frame s /\ planetype s' = planetype s
  /\ z_w0 s' = z_w0 s /\ w_0 s' = w_0 s.
Proof.
  destruct s as [X ps pt hi wl ov nn w0 zz zw ww wz sp ff rf lg]; simpl.
  efl_cases; repeat split.
Qed.




(** ** Intensity *)





(** ** How a call of [apply_optic] ends *)

(** No branch binds [z_eff] exactly when the lens is at one Rayleigh distance
    from the waist. *)
Lemma effective_focal_length_unbound (optic : GaussianLens) (zl : R)
  (Rin : xreal) (s : Wavefront) :
  snd (fst (effective_focal_length optic zl Rin s)) = None
  <-> Rabs (z_w0 s - zl) = z_R s.
Proof.
  unfold effective_focal_length, bindD, recip, ret.
  destruct (spherical s); simpl;
    repeat match goal with
           | |- context [Rlt_dec ?a ?b] => destruct (Rlt_dec a b); simpl
           | |- context [Rgt_dec ?a ?b] => destruct (Rgt_dec a b); simpl
           | |- context [xeqb ?a ?b] => destruct (xeqb a b); simpl
           | |- context [Req_dec_T ?a ?b] => destruct (Req_dec_T a b); simpl
           end;
    split; intros H; try discriminate; try reflexivity; lra.
Qed.

Lemma beam_update_continue (env : Env) (optic : GaussianLens) (zl : R)
  (s : Wavefront) :
  oversample s = optic_oversample optic -> delegates s optic = false ->
  exists s1,
    beam_update env optic zl false s = Ok (Continue s1 (R_input_beam_of s))
    /\ z_w0 s1 = fst (waist_after s optic zl)
    /\ z_R s1 = z_R_after s optic zl.
Proof.
  intros Ho Hd.
  assert (E : exists f, beam_update env optic zl false s = Ok f).
  { unfold beam_update. destruct (Req_dec_T _ _); [|contradiction].
    unfold delegates in Hd.
    destruct s as [X ps pt hi wl ov nn w0 zz zw ww wz sp ff rf lg];
      simpl in *.
    destruct (Rgt_dec _ _); simpl;
      destruct (is_pupil_or_image pt) eqn:Ept; simpl;
      destruct (xeqb _ _); simpl; rewrite ?Ept; simpl; rewrite Hd; simpl;
      eexists; reflexivity. }
  destruct E as [f E].
  destruct (beam_update_inv _ _ _ _ _ _ E)
    as (_ & s1 & Hzw & Hw & _ & Hl & _ & _ & _ & _ & _ & Hc).
  rewrite Hd in Hc. subst f. exists s1. split; [exact E|].
  split; [exact Hzw|]. unfold z_R, z_R_after. rewrite Hw, Hl. reflexivity.
Qed.




Lemma collimating_lens_returns :
  exists s', apply_optic numpy_env collimating_lens 3 false diverging_beam = Ok s'.
Proof.
  destruct (beam_update_continue numpy_env collimating_lens 3 diverging_beam
              eq_refl eq_refl) as (s1 & E & Hzw & HzR).
  pose proof (effective_focal_length_unbound collimating_lens 3
                (R_input_beam_of diverging_beam) s1) as Hu.
  unfold apply_optic. rewrite E. cbn [bind].
  destruct (effective_focal_length collimating_lens 3
              (R_input_beam_of diverging_beam) s1) as [[s2 ze] ds].
  cbn [fst snd] in *.
  destruct ze as [z_eff|]; [eexists; reflexivity|].
  exfalso. assert (H : Rabs (z_w0 s1 - 3) = z_R s1) by (apply Hu; reflexivity).
  rewrite Hzw, HzR in H.
  destruct diverging_beam_waist_after as [H6 H9].
  unfold z_R_after in H. rewrite H6, H9 in H.
  change (wavelength diverging_beam) with PI in H.
  pose proof PI_RGT_0.
  replace (PI * 9 / PI) with 9 in H by (field; lra).
  rewrite Rabs_pos_eq in H; lra.
Qed.


(** X11.  [apply_optic] checks the oversampling first: under a base class
    whose [propagateTo] returns, the call raises [AssertionError] exactly
    when the oversampling of the wavefront and of the optic differ. *)
Theorem apply_optic_assertion (env : Env) (optic : GaussianLens) (zl : R)
  (ign : bool) (s : Wavefront) :
  base_class_propagateTo env ->
  (apply_optic env optic zl ign s = Raise AssertionError
   <-> oversample s <> optic_oversample optic).
Proof.
  intros Hb. split.
  - intros H Ho.
    destruct (beam_update_returns env optic zl ign s Hb Ho) as [f E].
    unfold apply_optic in H. rewrite E in H. cbn [bind] in H.
    destruct f as [s1|s1 Rin]; [discriminate|].
    destruct (effective_focal_length optic zl Rin s1) as [[s2 [ze|]] ds];
      simpl in H; discriminate.
  - intros Hn. unfold apply_optic, beam_update.
    destruct (Req_dec_T _ _); [contradiction|reflexivity].
Qed.

Lemma apply_optic_assertion_witness :
  apply_optic numpy_env (mkGaussianLens 1 INTERMED 4 1) 0 false pupil_2x2
  = Raise AssertionError.
Proof.
  apply (proj2 (apply_optic_assertion numpy_env (mkGaussianLens 1 INTERMED 4 1)
                  0 false pupil_2x2 numpy_env_propagateTo)).
  simpl. lra.
Defined.

(** ** The spherical flag after a lens *)

Lemma effective_focal_length_spherical (optic : GaussianLens) (zl : R)
  (Rin : xreal) (s : Wavefront) (ze : R) :
  snd (fst (effective_focal_length optic zl Rin s)) = Some ze ->
  (spherical (fst (fst (effective_focal_length optic zl Rin s))) = true
   <-> Rabs (z_w0 s - zl) > z_R s)
  /\ (spherical (fst (fst (effective_focal_length optic zl Rin s))) = false
      <-> Rabs (z_w0 s - zl) < z_R s).
Proof.
  destruct s as [X ps pt hi wl ov nn w0 zz zw ww wz sp ff rf lg].
  unfold effective_focal_length, bindD, recip, ret. cbn [spherical z_w0].
  destruct sp; simpl;
    repeat match goal with
           | |- context [Rlt_dec ?a ?b] => destruct (Rlt_dec a b); simpl
           | |- context [Rgt_dec ?a ?b] => destruct (Rgt_dec a b); simpl
           | |- context [xeqb ?a ?b] => destruct (xeqb a b); simpl
           | |- context [Req_dec_T ?a ?b] => destruct (Req_dec_T a b); simpl
           end;
    intros H; try discriminate;
    (split; split; intros H'; try discriminate; try reflexivity; lra).
Qed.

(** X12.  After a call of [apply_optic] that computes the wavefront and
    returns, the spherical flag says where the lens is with respect to the new
    waist: it is [True] exactly when [|z_w0 - z_lens| > z_R] and [False]
    exactly when [|z_w0 - z_lens| < z_R], for the new [z_w0] and [z_R]. *)
Theorem apply_optic_sets_spherical (env : Env) (optic : GaussianLens)
  (zl : R) (s s' : Wavefront) :
  apply_optic env optic zl false s = Ok s' -> delegates s optic = false ->
  (spherical s' = true <-> Rabs (z_w0 s' - zl) > z_R s')
  /\ (spherical s' = false <-> Rabs (z_w0 s' - zl) < z_R s').
Proof.
  intros H Hd. unfold apply_optic in H.
  destruct (beam_update env optic zl false s) as [f|] eqn:E; simpl in H; [|discriminate].
  destruct (beam_update_frame _ _ _ _ _ _ E Hd) as (Hf & _).
  rewrite Hf in H. set (s1 := flow_state f) in *.
  pose proof (effective_focal_length_spherical optic zl (R_input_beam_of s) s1) as Hs.
  pose proof (effective_focal_length_frame optic zl (R_input_beam_of s) s1)
    as (Fe & _ & Hzw & Hw).
  destruct (effective_focal_length optic zl (R_input_beam_of s) s1)
    as [[s2 ze] ds]. cbn [fst snd] in *.
  destruct ze as [z_eff|]; [|discriminate]. injection H as <-.
  specialize (Hs z_eff eq_refl).
  destruct (imul_frame env (- z_eff) (wavelength s2) s2)
    as (_ & _ & _ & I4 & _ & _ & _ & _ & _ & I10).
  destruct (imul_waists env (mkQuadPhase (- z_eff) (wavelength s2)) s2)
    as (_ & _ & I3 & I5).
  assert (Hl : wavelength s2 = wavelength s1).
  { unfold optic_frame in Fe. injection Fe; auto. }
  assert (HzR : forall t : Wavefront,
             w_0 t = w_0 s1 -> wavelength t = wavelength s1 -> z_R t = z_R s1).
  { intros t T1 T2. unfold z_R. rewrite T1, T2. reflexivity. }
  cbn [spherical z_w0 set_planetype waists_append].
  rewrite I10, I3, Hzw.
  rewrite (HzR (set_planetype _ _)) by (simpl; congruence).
  exact Hs.
Qed.

Lemma apply_optic_sets_spherical_witness :
  exists s', apply_optic numpy_env collimating_lens 3 false diverging_beam = Ok s'
    /\ (spherical s' = false <-> Rabs (z_w0 s' - 3) < z_R s').
Proof.
  destruct collimating_lens_returns as [s' E].
  exists s'. split; [exact E|].
  exact (proj2 (apply_optic_sets_spherical numpy_env collimating_lens 3
                  diverging_beam s' E eq_refl)).
Defined.

(** ** The waist behind a lens *)




(** ** The history of waists over a run *)

Lemma run_op_waists (env : Env) (o : op) (s s' : Wavefront) :
  base_class_propagateTo env -> run_op env o s = Ok s' ->
  exists az aw,
    waists_z s' = waists_z s ++ az /\ waists_w0 s' = waists_w0 s ++ aw
    /\ List.length az = List.length aw
    /\ (List.length az <= match o with Optic _ _ _ => 1 | _ => 0 end)%nat.
Proof.
  intros Hb E. destruct o as [dz|optic zl ign]; simpl in E.
  - apply propagate_fresnel_beam in E. apply beam_waists in E as [-> ->].
    exists [], []. rewrite !app_nil_r. repeat split. simpl; lia.
  - pose proof (apply_optic_waists _ _ _ _ _ _ Hb E) as Hw.
    destruct (delegates s optic || ign); destruct Hw as [-> ->].
    + exists [], []. rewrite !app_nil_r. repeat split. simpl; lia.
    + eexists; eexists. repeat split. simpl; lia.
Qed.

Lemma run_ops_waists (env : Env) (os : list op) (s s' : Wavefront) :
  base_class_propagateTo env -> run_ops env os s = Ok s' ->
  exists az aw,
    waists_z s' = waists_z s ++ az /\ waists_w0 s' = waists_w0 s ++ aw
    /\ List.length az = List.length aw
    /\ (List.length az <= optics_in os)%nat.
Proof.
  intros Hb. revert s. induction os as [|o os IH]; intros s; simpl.
  - intros H; injection H as <-. exists [], []. rewrite !app_nil_r.
    repeat split. unfold optics_in; simpl; lia.
  - destruct (run_op env o s) as [s1|] eqn:E; simpl; [|discriminate].
    intros H. destruct (IH s1 H) as (az & aw & Hz & Hw & Hl & Hc).
    destruct (run_op_waists env o s s1 Hb E) as (bz & bw & Bz & Bw & Bl & Bc).
    exists (bz ++ az), (bw ++ aw).
    rewrite Hz, Hw, Bz, Bw, !app_assoc, !length_app.
    repeat split; [lia|].
    unfold optics_in in *. simpl. destruct o; simpl in *; lia.
Qed.

(** X14.  From a wavefront as [__init__] leaves it, through any sequence of
    [propagate_fresnel] and [apply_optic] calls that returns, the two waist
    lists keep one length, keep their first entry (the initial waist at
    position 0 with the radius of the beam), only grow, and have at most one
    entry more per lens; so [waists] can always stack them. *)
Theorem waists_invariant (env : Env) (os : list op) (X : ndarray)
  (ps wavelen beam_radius rayl over : R) (pt : PlaneType) (force : bool)
  (s0 s : Wavefront) :
  base_class_propagateTo env ->
  Wavefront_init X ps pt wavelen beam_radius rayl over force = Some s0 ->
  run_ops env os s0 = Ok s ->
  List.length (waists_z s) = List.length (waists_w0 s)
  /\ (exists az aw, waists_z s = 0 :: az /\ waists_w0 s = beam_radius :: aw)
  /\ (List.length (waists_z s) <= 1 + optics_in os)%nat
  /\ waists s = Some [waists_z s; waists_w0 s].
Proof.
  intros Hb Hi Hr.
  assert (H0 : waists_z s0 = [0] /\ waists_w0 s0 = [beam_radius]).
  { unfold Wavefront_init in Hi.
    destruct (PlaneType_eqb _ _); [discriminate|].
    injection Hi as <-. split; reflexivity. }
  destruct H0 as [Z0 W0].
  destruct (run_ops_waists env os s0 s Hb Hr) as (az & aw & Hz & Hw & Hl & Hc).
  rewrite Z0 in Hz. rewrite W0 in Hw.
  assert (L : List.length (waists_z s) = List.length (waists_w0 s)).
  { rewrite Hz, Hw. simpl. lia. }
  split; [exact L|]. split; [exists az, aw; split; assumption|].
  split; [rewrite Hz; simpl; lia|].
  unfold waists. rewrite L, Nat.eqb_refl. reflexivity.
Qed.

Lemma waists_invariant_witness :
  exists s,
    run_ops numpy_env [Optic unit_lens 0 true; Propagate 5] pupil_2x2 = Ok s
    /\ List.length (waists_z s) = List.length (waists_w0 s)
    /\ (List.length (waists_z s) <= 1 + 1)%nat.
Proof.
  destruct (apply_optic_ignore_returns numpy_env unit_lens 0 pupil_2x2
              numpy_env_propagateTo eq_refl) as [s1 E1].
  destruct (propagate_fresnel_numpy numpy_env 5 s1 eq_refl) as [s2 E2].
  assert (E : run_ops numpy_env [Optic unit_lens 0 true; Propagate 5] pupil_2x2
              = Ok s2).
  { simpl. rewrite E1. simpl. rewrite E2. reflexivity. }
  exists s2. split; [exact E|].
  destruct (waists_invariant numpy_env [Optic unit_lens 0 true; Propagate 5]
              _ _ _ _ _ _ _ _ pupil_2x2 s2
              numpy_env_propagateTo pupil_2x2_init E) as (H1 & _ & H3 & _).
  split; [exact H1|exact H3].
Defined.

(** ** The FFT pair with numpy *)

(** X15.  With numpy's FFT, on a field with at least one row, [fft()]
    followed by [inv_fft()], and [inv_fft()] followed by [fft()], return and
    leave the field, and every attribute but the log, as they were: the
    division and the product by the number of rows cancel. *)
Theorem fft_round_trip_numpy (env : Env) (s : Wavefront) (r c : nat) :
  USE_FFTW env = false -> fft_contract env r c ->
  rect (wavefront s) r c -> r <> 0%nat ->
  (exists s1 s2, fft env s = Ok s1 /\ inv_fft env s1 = Ok s2
                 /\ forget_log s2 = forget_log s)
  /\ (exists s1 s2, inv_fft env s = Ok s1 /\ fft env s1 = Ok s2
                    /\ forget_log s2 = forget_log s).
Proof.
  intros Hu Hc Hx Hr.
  destruct (fft_field_pair env (wavefront s) r c Hc Hx Hr) as (F1 & F2 & _ & _).
  assert (F : forall X : ndarray, X = wavefront s ->
             forget_log (set_wavefront X s) = forget_log s).
  { intros X ->. destruct s; reflexivity. }
  unfold fft, inv_fft. rewrite Hu. cbn [bind]. split.
  - eexists; eexists. split; [reflexivity|]. split; [reflexivity|].
    apply (F (inv_fft_field env (fft_field env (wavefront s)))). exact F1.
  - eexists; eexists. split; [reflexivity|]. split; [reflexivity|].
    apply (F (fft_field env (inv_fft_field env (wavefront s)))). exact F2.
Qed.

Lemma fft_round_trip_numpy_witness :
  exists s1 s2, fft numpy_env pupil_2x2 = Ok s1 /\ inv_fft numpy_env s1 = Ok s2
                /\ forget_log s2 = forget_log pupil_2x2.
Proof.
  apply (proj1 (fft_round_trip_numpy numpy_env pupil_2x2 2 2 eq_refl
                  numpy_env_contract (rect_2x2_intro _ _ _ _)
                  ltac:(discriminate))).
Defined.

(** ** Kernels that do nothing, and the history *)






(** ** Propagation when [pyfftw] is selected *)

Lemma kernel_skipped_dec (k : kernel) : {kernel_skipped k} + {~ kernel_skipped k}.
Proof.
  destruct k as [dz|dz|dz]; simpl;
    [apply Rlt_dec|apply Req_dec_T|apply Req_dec_T].
Qed.

Lemma run_kernel_pyfftw (env : Env) (k : kernel) (s : Wavefront) :
  USE_FFTW env = true ->
  (kernel_skipped k -> exists s', run_kernel env k s = Ok s')
  /\ (~ kernel_skipped k -> run_kernel env k s = Raise NameError).
Proof.
  intros Hu. destruct k as [dz|dz|dz]; simpl.
  - unfold ptp, fft. rewrite Hu. destruct (Rlt_dec _ _); split; intros H;
      try contradiction; [eexists; reflexivity|reflexivity].
  - unfold wts, fft, inv_fft. rewrite Hu.
    destruct (Req_dec_T dz 0); split; intros H; try contradiction;
      [eexists; reflexivity|]. destruct (Rgt_dec dz 0); reflexivity.
  - unfold stw, fft, inv_fft. rewrite Hu.
    destruct (Req_dec_T dz 0); split; intros H; try contradiction;
      [eexists; reflexivity|]. destruct (Rgt_dec dz 0); reflexivity.
Qed.

Lemma run_kernels_pyfftw (env : Env) (ks : list kernel) (s : Wavefront) :
  USE_FFTW env = true ->
  (Forall kernel_skipped ks -> exists s', run_kernels env ks s = Ok s')
  /\ (~ Forall kernel_skipped ks -> run_kernels env ks s = Raise NameError).
Proof.
  intros Hu. revert s. induction ks as [|k ks IH]; intros s; simpl.
  - split; [eexists; reflexivity|]. intros H. exfalso; apply H; constructor.
  - destruct (run_kernel_pyfftw env k s Hu) as [Hk1 Hk2].
    destruct (kernel_skipped_dec k) as [Hs|Hs].
    + destruct (Hk1 Hs) as [s1 ->]. cbn [bind].
      destruct (IH s1) as [I1 I2]. split.
      * intros H. apply I1. inversion H; assumption.
      * intros H. apply I2. intros Hf. apply H. constructor; assumption.
    + rewrite (Hk2 Hs). cbn [bind]. split; [|reflexivity].
      intros H. inversion H; contradiction.
Qed.

Lemma res_forget_log_Raise (r : result Wavefront) (e : exn) :
  res_forget_log r = Raise e -> r = Raise e.
Proof. destruct r; simpl; intros H; [discriminate|exact H]. Qed.

(** X17.  When [pyfftw] is selected, [propagate_fresnel] returns only if
    every kernel of its row is skipped ([ptp] below one angstrom, [wts] and
    [stw] at zero distance); as soon as one kernel has a transform to do, the
    call raises [NameError]. *)
Theorem propagate_fresnel_pyfftw (env : Env) (delta_z : R) (s : Wavefront) :
  USE_FFTW env = true ->
  (Forall kernel_skipped (spec_regime_table s delta_z) ->
   exists s', propagate_fresnel env delta_z s = Ok s')
  /\ (~ Forall kernel_skipped (spec_regime_table s delta_z) ->
      propagate_fresnel env delta_z s = Raise NameError).
Proof.
  intros Hu.
  destruct (dispatch_refines_table env delta_z s) as [Heq _].
  unfold spec_propagate_fresnel in Heq.
  destruct (run_kernels_pyfftw env (spec_regime_table s delta_z)
              (set_wavefront (fftshift (wavefront s)) s) Hu) as [R1 R2].
  split; intros H.
  - destruct (R1 H) as [s1 E1]. rewrite E1 in Heq. simpl in Heq.
    apply res_forget_log_Ok in Heq as (s' & E & _). exists s'. exact E.
  - rewrite (R2 H) in Heq. simpl in Heq.
    apply res_forget_log_Raise. exact Heq.
Qed.

Lemma propagate_fresnel_pyfftw_witness :
  propagate_fresnel fftw_env 5 pupil_2x2 = Raise NameError.
Proof.
  apply (proj2 (propagate_fresnel_pyfftw fftw_env 5 pupil_2x2 eq_refl)).
  intros H. pose proof PI_4 as Hpi. revert H.
  unfold spec_regime_table; simpl.
  destruct (spec_in_range_dec _ _) as [Hin|_].
  - exfalso. unfold spec_in_range, z_R in Hin; simpl in Hin.
    rewrite Rabs_left in Hin by lra. lra.
  - intros H. inversion H as [|? ? _ H2]; subst.
    inversion H2 as [|? ? H3 _]; subst. simpl in H3. lra.
Defined.

(** ** The coordinates about the FFT centre *)

Lemma nth_arr_map {A B : Type} (f : A -> B) (X : list (list A))
  (i j : nat) (d : B) (d' : A) :
  (i < List.length X)%nat -> (j < List.length (nth i X []))%nat ->
  nth j (nth i (arr_map f X) []) d = f (nth j (nth i X []) d').
Proof.
  intros Hi Hj. unfold arr_map.
  rewrite (nth_indep _ [] (map f []))
    by (rewrite length_map; exact Hi).
  rewrite map_nth.
  rewrite (nth_indep _ d (f d')) by (rewrite length_map; exact Hj).
  apply map_nth.
Qed.

Lemma indices_entry (r c i j : nat) (d : R) :
  (i < r)%nat -> (j < c)%nat ->
  nth j (nth i (fst (indices r c)) []) d = INR i
  /\ nth j (nth i (snd (indices r c)) []) d = INR j.
Proof.
  intros Hi Hj. unfold indices; cbn [fst snd]. split.
  - set (f := fun i : nat => repeat (INR i) c).
    rewrite (nth_indep _ [] (f 0%nat))
      by (rewrite length_map, length_seq; exact Hi).
    rewrite map_nth, seq_nth by exact Hi. unfold f. simpl.
    apply nth_repeat_lt. exact Hj.
  - rewrite nth_repeat_lt by exact Hi.
    rewrite (nth_indep _ d (INR 0)) by (rewrite length_map, length_seq; exact Hj).
    rewrite map_nth, seq_nth by exact Hj. reflexivity.
Qed.

(** The samples of [fft_coords]. *)
Lemma fft_coords_entry (s : Wavefront) (r c i j : nat) (d : R) :
  shape s = (r, c) -> (i < r)%nat -> (j < c)%nat ->
  nth j (nth i (fst (fft_coords s)) []) d = (INR i - INR r / 2) * pixelscale s
  /\ nth j (nth i (snd (fft_coords s)) []) d = (INR j - INR c / 2) * pixelscale s.
Proof.
  intros Hs Hi Hj. unfold fft_coords. rewrite Hs. cbn [fst snd].
  destruct (indices_rect r c) as [[Ly Ry] [Lx Rx]].
  destruct (indices_entry r c i j 0 Hi Hj) as [Ey Ex].
  destruct (indices r c) as [y x]. cbn [fst snd] in *.
  assert (Hy : (j < List.length (nth i y []))%nat).
  { rewrite Forall_forall in Ry. rewrite (Ry (nth i y [])); [exact Hj|].
    apply nth_In. lia. }
  assert (Hx : (j < List.length (nth i x []))%nat).
  { rewrite Forall_forall in Rx. rewrite (Rx (nth i x [])); [exact Hj|].
    apply nth_In. lia. }
  split.
  - rewrite (nth_arr_map _ _ i j d 0), (nth_arr_map _ _ i j 0 0), Ey;
      try reflexivity; try lia; try assumption.
    + unfold arr_map. rewrite length_map. lia.
    + unfold arr_map.
      rewrite (nth_indep _ [] (map (fun v => v - INR r / 2) []))
        by (rewrite length_map; lia).
      rewrite map_nth, length_map. exact Hy.
  - rewrite (nth_arr_map _ _ i j d 0), (nth_arr_map _ _ i j 0 0), Ex;
      try reflexivity; try lia; try assumption.
    + unfold arr_map. rewrite length_map. lia.
    + unfold arr_map.
      rewrite (nth_indep _ [] (map (fun v => v - INR c / 2) []))
        by (rewrite length_map; lia).
      rewrite map_nth, length_map. exact Hx.
Qed.

Lemma INR_half_even (k : nat) : Nat.even k = true -> INR (k / 2) - INR k / 2 = 0.
Proof.
  intros H. destruct (even_half k H) as [_ H2].
  rewrite <- H2 at 2. rewrite plus_INR. field.
Qed.

(** X18.  [fft_coords] returns two grids of the shape of the field, whose
    samples are the row and the column index, measured from half the number
    of rows and of columns, times the pixel scale; when both dimensions are
    even, the sample at the FFT centre (half the rows, half the columns) has
    both coordinates zero. *)
Theorem fft_coords_centre (s : Wavefront) (r c i j : nat) (d : R) :
  shape s = (r, c) -> (i < r)%nat -> (j < c)%nat ->
  rect (fst (fft_coords s)) r c /\ rect (snd (fft_coords s)) r c
  /\ nth j (nth i (fst (fft_coords s)) []) d = (INR i - INR r / 2) * pixelscale s
  /\ nth j (nth i (snd (fft_coords s)) []) d = (INR j - INR c / 2) * pixelscale s
  /\ (Nat.even r = true -> Nat.even c = true ->
      nth (c / 2) (nth (r / 2) (fst (fft_coords s)) []) d = 0
      /\ nth (c / 2) (nth (r / 2) (snd (fft_coords s)) []) d = 0).
Proof.
  intros Hs Hi Hj.
  assert (R : rect (fst (fft_coords s)) r c /\ rect (snd (fft_coords s)) r c).
  { unfold fft_coords. rewrite Hs. cbn [fst snd].
    destruct (indices_rect r c) as [Hy Hx].
    destruct (indices r c) as [y x]. cbn [fst snd] in *.
    split; repeat apply arr_map_rect; assumption. }
  destruct R as [R1 R2].
  destruct (fft_coords_entry s r c i j d Hs Hi Hj) as [E1 E2].
  repeat (split; [assumption|]).
  intros Hr Hc.
  assert (Hr2 : (r / 2 < r)%nat) by (apply Nat.div_lt; lia).
  assert (Hc2 : (c / 2 < c)%nat) by (apply Nat.div_lt; lia).
  destruct (fft_coords_entry s r c (r / 2) (c / 2) d Hs Hr2 Hc2) as [-> ->].
  rewrite (INR_half_even r Hr), (INR_half_even c Hc). split; ring.
Qed.

Lemma fft_coords_centre_witness :
  nth 1 (nth 1 (fst (fft_coords pupil_2x2)) []) 7 = 0
  /\ nth 1 (nth 1 (snd (fft_coords pupil_2x2)) []) 7 = 0.
Proof.
  destruct (fft_coords_centre pupil_2x2 2 2 0 0 7 eq_refl
              ltac:(lia) ltac:(lia)) as (_ & _ & _ & _ & H).
  exact (H eq_refl eq_refl).
Defined.

(** ** [propagate_direct] *)

(** X19.  [propagate_direct] never returns: whatever the distance, the
    wavefront and the FFT backend, the call ends in an exception, and for a
    wavelength that is not zero the exception is [NameError], because the
    name [forward_FFT] that it calls is bound nowhere; the field and the
    history are never written. *)
Theorem propagate_direct_raises (env : Env) (zd : R) (s : Wavefront) :
  (wavelength s <> 0 -> propagate_direct env zd s = Raise NameError)
  /\ forall s', propagate_direct env zd s <> Ok s'.
Proof.
  assert (H : propagate_direct env zd s = Raise NameError).
  { unfold propagate_direct. destruct (fft_coords s). reflexivity. }
  split; [intros _; exact H|]. intros s'. rewrite H. discriminate.
Qed.

Lemma propagate_direct_raises_witness :
  wavelength pupil_2x2 <> 0
  /\ propagate_direct numpy_env 1 pupil_2x2 = Raise NameError.
Proof.
  assert (H : wavelength pupil_2x2 <> 0) by (simpl; lra).
  split; [exact H|].
  exact (proj1 (propagate_direct_raises numpy_env 1 pupil_2x2) H).
Defined.

(** ** The two tests of the regime *)

(** X20.  The test of [apply_optic] and the test of [planar_range] agree:
    with [rayl_factor] at least 1 and a Rayleigh distance that is not
    negative, whenever [apply_optic] takes the incoming wavefront as
    spherical ([R_input_beam] finite) the plane of the wavefront is out of
    the planar range, and [R_input_beam] is the offset from the waist, not
    zero. *)
Theorem spherical_input_is_out_of_range (s : Wavefront) (v : R) :
  1 <= rayl_factor s -> 0 <= z_R s -> R_input_beam_of s = Fin v ->
  planar_range s (z s) = false /\ v = z s - z_w0 s /\ v <> 0.
Proof.
  intros Hr Hz. unfold R_input_beam_of, planar_range.
  destruct (Rgt_dec _ _) as [Hgt|_]; [|discriminate].
  intros H; injection H as <-.
  assert (Hm : z_R s <= rayl_factor s * z_R s) by nra.
  split; [|split; [reflexivity|]].
  - destruct (Rlt_dec _ _); [lra|reflexivity].
  - intros E. replace (z_w0 s - z s) with (- (z s - z_w0 s)) in Hgt by ring.
    rewrite E, Ropp_0, Rabs_R0 in Hgt. lra.
Qed.

Lemma spherical_input_is_out_of_range_witness :
  planar_range diverging_beam (z diverging_beam) = false.
Proof.
  assert (H1 : 1 <= rayl_factor diverging_beam) by (simpl; lra).
  assert (H2 : 0 <= z_R diverging_beam) by (rewrite diverging_beam_z_R; lra).
  assert (H3 : R_input_beam_of diverging_beam = Fin (3 - 0)).
  { unfold R_input_beam_of. rewrite diverging_beam_z_R. simpl.
    destruct (Rgt_dec _ _) as [_|Hn]; [reflexivity|].
    exfalso; apply Hn. rewrite Rabs_left; lra. }
  exact (proj1 (spherical_input_is_out_of_range diverging_beam (3 - 0) H1 H2 H3)).
Defined.

(** ** A plane-to-plane step and its reverse *)

Lemma arr_mul_one (f : R -> C) (X : ndarray) (G : grid) (r c : nat) :
  (forall v t, Cmult v (f t) = v) -> rect X r c -> rect G r c ->
  arr_mul X (arr_map f G) = X.
Proof.
  intros Hf. unfold arr_mul, arr_map2, arr_map, rect. revert G r.
  induction X as [|x X IH]; intros [|gr G] r [Hl Hx] [Hl' Hg]; simpl in *;
    subst; try discriminate.
  { reflexivity. }
  inversion Hx; subst. inversion Hg; subst. f_equal.
  - assert (Hlen : List.length x = List.length gr) by congruence.
    clear - Hf Hlen. revert gr Hlen.
    induction x as [|v x IHx]; intros [|t gr] H; simpl in *; try discriminate.
    { reflexivity. }
    f_equal; [apply Hf|]. apply IHx. lia.
  - apply (IH G (List.length X)); split; auto; lia.
Qed.

Lemma Cmult_Cexp_zero (v : C) : Cmult v (Cexp (0, - 0)) = v.
Proof.
  rewrite Cexp_imaginary, Ropp_0, cos_0, sin_0.
  destruct v as [a b]. unfold Cmult; simpl. f_equal; ring.
Qed.

(** X21.  With numpy's FFT, a plane-to-plane step that is not skipped,
    followed by the step of the opposite distance, returns the wavefront to
    its field, its position and its pixel scale: plane-to-plane propagation
    can be traced back. *)
Theorem ptp_there_and_back (env : Env) (s : Wavefront) (r c : nat) (a : R) :
  USE_FFTW env = false -> fft_contract env r c ->
  rect (wavefront s) r c -> r <> 0%nat -> 1 * Angstrom <= Rabs a ->
  exists s1 s2,
    ptp env a s = Ok s1 /\ ptp env (- a) s1 = Ok s2
    /\ wavefront s2 = wavefront s /\ z s2 = z s
    /\ pixelscale s2 = pixelscale s.
Proof.
  intros Hu Hc Hx Hr Ha.
  assert (Hna : 1 * Angstrom <= Rabs (- a)) by (rewrite Rabs_Ropp; exact Ha).
  destruct (ptp_numpy_fields env a s Hu Ha)
    as (s1 & E1 & W1 & Z1 & P1 & O1 & L1 & _).
  destruct (ptp_numpy_fields env (- a) s1 Hu Hna)
    as (s2 & E2 & W2 & Z2 & P2 & _).
  exists s1, s2. repeat (split; [assumption|]).
  assert (Hs : shape s = (r, c)) by (apply rect_shape; assumption).
  destruct (fft_field_pair env (wavefront s) r c Hc Hx Hr) as (IF & _ & RF & _).
  set (Y := arr_mul (fft_field env (wavefront s)) (transfer s a)) in *.
  assert (HY : rect Y r c).
  { apply arr_mul_rect; [exact RF|apply transfer_rect; exact Hs]. }
  destruct (fft_field_pair env Y r c Hc HY Hr) as (_ & FY & _ & RY).
  assert (Hs1 : shape s1 = shape s).
  { unfold shape at 1. rewrite W1, Hs. apply rect_shape; assumption. }
  split; [|split; [rewrite Z2, Z1; ring|rewrite P2, P1; reflexivity]].
  rewrite W2, W1, FY, (transfer_same s s1 (- a) Hs1 P1 O1 L1).
  unfold Y. rewrite transfer_add.
  replace (arr_mul (fft_field env (wavefront s)) (transfer s (a + - a)))
    with (fft_field env (wavefront s)); [exact IF|].
  symmetry. unfold transfer. rewrite arr_map_arr_map.
  apply (arr_mul_one _ _ _ r c); [|exact RF|apply rho_rect; exact Hs].
  intros v t. cbv beta.
  replace (PI * wavelength s * (a + - a) * t) with 0 by ring.
  apply Cmult_Cexp_zero.
Qed.

Lemma ptp_there_and_back_witness :
  exists s1 s2,
    ptp numpy_env 1 pupil_2x2 = Ok s1 /\ ptp numpy_env (- 1) s1 = Ok s2
    /\ wavefront s2 = wavefront pupil_2x2 /\ z s2 = z pupil_2x2
    /\ pixelscale s2 = pixelscale pupil_2x2.
Proof.
  pose proof Angstrom_pos as Ha. pose proof Angstrom_lt_1 as Hb.
  apply (ptp_there_and_back numpy_env pupil_2x2 2 2 1).
  - reflexivity.
  - exact numpy_env_contract.
  - apply rect_2x2_intro.
  - discriminate.
  - rewrite Rabs_pos_eq by lra. lra.
Defined.
